(** * MusicBrainz-cli: rate-limited request client, identifier resolver
      and command layer

    A shallow embedding of [src/api.py] (class [MusicBrainzAPI]) and
    [src/main.py] (helpers, the four commands and [main]), followed by the
    properties of the specification that concern them.

    Conventions of the embedding:
    - Python [str] is [string]; characters are 8-bit code units.
    - Python [int] is [Z]; [//] is [Z.div] and [%] is [Z.modulo] (both floor).
    - Wall-clock time ([time.time()], seconds) is an exact rational [Q];
      the rounding of binary floating point is not modelled.
    - A JSON document is a [pyval]; JSON numbers with a fraction or an
      exponent are outside the model.
    - Everything the process cannot decide by itself (how long an operation
      takes, what [urlopen] and [json.loads] answer) is read from an
      [environment]. *)

From Stdlib Require Import ZArith QArith List String Ascii Bool Lia Lqa.
From Stdlib Require Import DecimalString.
Import ListNotations.

Open Scope string_scope.
Open Scope Z_scope.

(** ** Characters and strings *)

Definition char_code (c : ascii) : N := N_of_ascii c.

Definition in_range (lo hi c : ascii) : bool :=
  (char_code lo <=? char_code c)%N && (char_code c <=? char_code hi)%N.

Definition to_lower (c : ascii) : ascii :=
  if in_range "A" "Z" c then ascii_of_N (char_code c + 32) else c.

Definition to_upper (c : ascii) : ascii :=
  if in_range "a" "z" c then ascii_of_N (char_code c - 32) else c.

Definition newline : ascii := ascii_of_nat 10.
Definition dquote : string := String (ascii_of_nat 34) EmptyString.

Fixpoint repeat_string (s : string) (n : nat) : string :=
  match n with
  | O => ""
  | S n' => s ++ repeat_string s n'
  end.

(** [sub in s] of Python: [sub] occurs somewhere in [s]. *)
Fixpoint contains (sub s : string) : bool :=
  prefix sub s ||
  match s with
  | EmptyString => false
  | String _ s' => contains sub s'
  end.

(** [str(n)] for an [int]. *)
Definition str_of_int (n : Z) : string := NilEmpty.string_of_int (Z.to_int n).

(** The format specification [02d]: the decimal text, zero-padded on the
    left to a width of two (a sign counts towards the width). *)
Definition fmt_02d (n : Z) : string :=
  let s := str_of_int n in
  if (String.length s <? 2)%nat then "0" ++ s else s.

(** ** Python values

    The values a decoded JSON body is made of.  A [PDict] lists the items of
    the dict in insertion order, every key once.  Numbers with a fraction or
    an exponent (Python floats) are not among them: the documents of this
    development hold integers only. *)

#[warnings="-register-all"]
Inductive pyval : Type :=
| PNone
| PBool (b : bool)
| PInt (n : Z)
| PStr (s : string)
| PList (l : list pyval)
| PDict (d : list (string * pyval)).

Definition dict := list (string * pyval).

Fixpoint dict_get (d : dict) (k : string) : option pyval :=
  match d with
  | [] => None
  | (k', v) :: d' => if String.eqb k k' then Some v else dict_get d' k
  end.

(** [d[k] = v]: replace in place when the key exists, else append. *)
Fixpoint dict_set (d : dict) (k : string) (v : pyval) : dict :=
  match d with
  | [] => [(k, v)]
  | (k', v') :: d' =>
      if String.eqb k k' then (k', v) :: d' else (k', v') :: dict_set d' k v
  end.

(** Truth value testing ([if x:], [not x]). *)
Definition truthy (v : pyval) : bool :=
  match v with
  | PNone => false
  | PBool b => b
  | PInt n => negb (n =? 0)
  | PStr s => negb (String.eqb s "")
  | PList l => match l with [] => false | _ => true end
  | PDict d => match d with [] => false | _ => true end
  end.

(** An [Optional[str]] argument under [if o:]: [None] and the empty string
    both count as not given. *)
Definition supplied (o : option string) : option string :=
  match o with
  | Some s => if String.eqb s "" then None else Some s
  | None => None
  end.

(** ** The regular expression of [MBID_PATTERN]

    The fragment of [re] the pattern uses: anchors, literal characters and
    character classes (a counted repetition [c{n}] is [n] copies of [c]).
    There is no alternation and no open repetition, so matching never
    backtracks. *)

Inductive atom : Type :=
| Bol                                   (* ^ *)
| Eol                                   (* $ *)
| Lit (c : ascii)
| Class (ranges : list (ascii * ascii)).

Definition in_class (ranges : list (ascii * ascii)) (c : ascii) : bool :=
  existsb (fun r => in_range (fst r) (snd r) c) ranges.

(** One character against a literal or a class; with [re.IGNORECASE] a
    character also matches through its other case. *)
Definition lit_matches (ignorecase : bool) (c x : ascii) : bool :=
  Ascii.eqb c x ||
  (ignorecase && Ascii.eqb (to_lower c) (to_lower x)).

Definition class_matches (ignorecase : bool) (ranges : list (ascii * ascii))
    (x : ascii) : bool :=
  in_class ranges x ||
  (ignorecase && (in_class ranges (to_lower x) || in_class ranges (to_upper x))).

(** [$] without [re.MULTILINE]: at the end of the string, or just before a
    newline that is the last character of the string. *)
Definition at_eol (rest : string) : bool :=
  match rest with
  | EmptyString => true
  | String c EmptyString => Ascii.eqb c newline
  | _ => false
  end.

(** [re_match_here ic p at_start s]: the atoms [p] match a prefix of [s];
    [at_start] tells whether [s] is still the whole subject. *)
Fixpoint re_match_here (ic : bool) (p : list atom) (at_start : bool)
    (s : string) : bool :=
  match p with
  | [] => true
  | Bol :: p' => at_start && re_match_here ic p' at_start s
  | Eol :: p' => at_eol s && re_match_here ic p' at_start s
  | Lit c :: p' =>
      match s with
      | EmptyString => false
      | String x s' => lit_matches ic c x && re_match_here ic p' false s'
      end
  | Class rs :: p' =>
      match s with
      | EmptyString => false
      | String x s' => class_matches ic rs x && re_match_here ic p' false s'
      end
  end.

Record regex : Type := { re_atoms : list atom; re_ignorecase : bool }.

(** [pattern.match(s) is not None]: a match anchored at position 0. *)
Definition re_match (r : regex) (s : string) : bool :=
  re_match_here (re_ignorecase r) (re_atoms r) true s.

Definition hex_class : atom := Class [("0", "9"); ("a", "f")]%char.

(** [re.compile(r'^[0-9a-f]{8}-[0-9a-f]{4}-[0-9a-f]{4}-[0-9a-f]{4}-[0-9a-f]{12}$',
    re.IGNORECASE)] *)
Definition MBID_PATTERN : regex :=
  {| re_atoms :=
       [Bol] ++ repeat hex_class 8 ++ [Lit "-"%char] ++
       repeat hex_class 4 ++ [Lit "-"%char] ++
       repeat hex_class 4 ++ [Lit "-"%char] ++
       repeat hex_class 4 ++ [Lit "-"%char] ++
       repeat hex_class 12 ++ [Eol];
     re_ignorecase := true |}.

(** [is_valid_mbid(string)], for a [str] argument. *)
Definition is_valid_mbid (s : string) : bool :=
  if String.eqb s "" then false else re_match MBID_PATTERN s.

(** ** Exceptions and results *)

(** The exceptions the handlers of the program tell apart.  [Fault cls]
    stands for an exception raised by the interpreter itself ([TypeError],
    [KeyError], [IndexError], [AttributeError]): each of them is an
    [Exception] and none is a [ValueError] or an [APIError]. *)
Inductive exn : Type :=
| ValueError (msg : string)
| APIError (msg : string)
| Fault (cls : string)
| KeyboardInterrupt
| SystemExit (code : Z).

(** [isinstance(e, Exception)]: [KeyboardInterrupt] and [SystemExit] derive
    from [BaseException] only. *)
Definition is_Exception (e : exn) : bool :=
  match e with
  | ValueError _ | APIError _ | Fault _ => true
  | KeyboardInterrupt | SystemExit _ => false
  end.

Inductive result (A : Type) : Type :=
| Return (a : A)
| Raise (e : exn).
Arguments Return {A} a.
Arguments Raise {A} e.

(** ** The world outside the process *)

(** What [urllib.request.urlopen(req).read().decode('utf-8')] does. *)
Inductive urlopen_outcome : Type :=
| Responds (data : string)
| RaisesHTTPError (code : Z) (reason : string)
| RaisesURLError (reason : string)
| RaisesException (text : string)        (* any other Exception, str(e) = text *)
| RaisesKeyboardInterrupt.

(** What [json.loads(data)] does. *)
Inductive loads_outcome : Type :=
| Parsed (doc : pyval)
| JSONDecodeError (text : string).

(** The path below [API_BASE]: a collection ['artist'], or an entity
    [f'artist/{mbid}']. *)
Inductive endpoint : Type :=
| Collection (entity : string)
| Entity (entity : string) (mbid : pyval).

Record request : Type := {
  req_endpoint : endpoint;
  req_params : dict;                     (* urlencoded into the query string *)
  req_headers : list (string * string);
  req_timeout : Z;
  req_time : Q                           (* _last_request_time at dispatch *)
}.

(** [pause k] is the time the [k]-th timed operation of the run takes
    beyond what it was asked for; [urlopen k] is the outcome of the [k]-th
    request of the run. *)
Record environment : Type := {
  pause : nat -> Q;
  urlopen : nat -> urlopen_outcome;
  json_loads : string -> loads_outcome
}.

(** One piece of a printed line: literal text, [str(v)], [str(e)], or
    [format(v, spec)]. *)
Inductive fragment : Type :=
| Text (s : string)
| Str (v : pyval)
| StrExn (e : exn)
| Fmt (v : pyval) (spec : string).

Definition line := list fragment.

Record world : Type := {
  clock : Q;                             (* the wall clock *)
  ticks : nat;                           (* timed operations so far *)
  last_request_time : Q;                 (* MusicBrainzAPI._last_request_time *)
  requests : list request;               (* requests dispatched, oldest first *)
  stdout : list line;
  stderr : list line
}.

(** ** The monad of the program: state and exceptions *)

Definition M (A : Type) : Type := world -> result A * world.

Definition ret {A} (a : A) : M A := fun w => (Return a, w).
Definition raise {A} (e : exn) : M A := fun w => (Raise e, w).
Definition bind {A B} (m : M A) (k : A -> M B) : M B :=
  fun w =>
    match m w with
    | (Return a, w') => k a w'
    | (Raise e, w') => (Raise e, w')
    end.
Definition lift {A} (r : result A) : M A := fun w => (r, w).

Declare Scope py_scope.
Delimit Scope py_scope with py.
Notation "x <- m ;; k" := (bind m (fun x => k))
  (at level 61, m at next level, right associativity) : py_scope.
Notation "m ;; k" := (bind m (fun _ => k))
  (at level 61, right associativity) : py_scope.
Open Scope py_scope.

(** [try: body except ...]: the handler sees the exception and the world the
    body left behind. *)
Definition try_except {A} (body : M A) (handler : exn -> option (M A)) : M A :=
  fun w =>
    match body w with
    | (Return a, w') => (Return a, w')
    | (Raise e, w') =>
        match handler e with
        | Some h => h w'
        | None => (Raise e, w')
        end
    end.

(** [for x in xs: body]. *)
Fixpoint for_each {A} (xs : list A) (body : A -> M unit) : M unit :=
  match xs with
  | [] => ret tt
  | x :: xs' => body x ;; for_each xs' body
  end.

Definition print (l : line) : M unit :=
  fun w => (Return tt,
            {| clock := clock w; ticks := ticks w;
               last_request_time := last_request_time w;
               requests := requests w;
               stdout := stdout w ++ [l]; stderr := stderr w |}).

Definition print_err (l : line) : M unit :=
  fun w => (Return tt,
            {| clock := clock w; ticks := ticks w;
               last_request_time := last_request_time w;
               requests := requests w;
               stdout := stdout w; stderr := stderr w ++ [l] |}).

Definition sys_exit {A} (code : Z) : M A := raise (SystemExit code).

(** ** src/api.py *)

Definition API_BASE : string := "https://musicbrainz.org/ws/2".
Definition USER_AGENT : string := "MusicBrainzCLI/1.0.0 (educational-project)".
Definition RATE_LIMIT : Q := 1.
Definition REQUEST_TIMEOUT : Z := 30.

Section Client.

Variable env : environment.

(** Time passes for [d] seconds and for whatever longer the environment
    decides. *)
Definition elapse (d : Q) (w : world) : world :=
  {| clock := clock w + d + pause env (ticks w); ticks := S (ticks w);
     last_request_time := last_request_time w;
     requests := requests w; stdout := stdout w; stderr := stderr w |}.

(** [time.time()] *)
Definition time_time : M Q :=
  fun w => let w' := elapse 0 w in (Return (clock w'), w').

(** [time.sleep(secs)] *)
Definition time_sleep (secs : Q) : M unit :=
  fun w => (Return tt, elapse secs w).

Definition get_last_request_time : M Q :=
  fun w => (Return (last_request_time w), w).

Definition set_last_request_time (t : Q) : M unit :=
  fun w => (Return tt,
            {| clock := clock w; ticks := ticks w; last_request_time := t;
               requests := requests w; stdout := stdout w; stderr := stderr w |}).

Definition Qltb (x y : Q) : bool := negb (Qle_bool y x).

Definition _rate_limit : M unit :=
  now <- time_time ;;
  last <- get_last_request_time ;;
  let elapsed := (now - last)%Q in
  (if Qltb elapsed RATE_LIMIT
   then time_sleep (RATE_LIMIT - elapsed)
   else ret tt) ;;
  now' <- time_time ;;
  set_last_request_time now'.

(** [urllib.request.urlopen(req, timeout=REQUEST_TIMEOUT)] and reading the
    body: the request goes out, stamped with the timestamp the rate limiter
    has just stored, and the environment answers after some time. *)
Definition dispatch (ep : endpoint) (params : dict)
    (headers : list (string * string)) : M urlopen_outcome :=
  fun w =>
    let r := {| req_endpoint := ep; req_params := params;
                req_headers := headers; req_timeout := REQUEST_TIMEOUT;
                req_time := last_request_time w |} in
    let w1 := {| clock := clock w; ticks := ticks w;
                 last_request_time := last_request_time w;
                 requests := requests w ++ [r];
                 stdout := stdout w; stderr := stderr w |} in
    (Return (urlopen env (List.length (requests w))), elapse 0 w1).

Definition not_found_document : pyval :=
  PDict [("error", PStr "not_found"); ("message", PStr "Entity not found")].

(** [urllib.parse.urlencode(params)] and [Request(url)] are not steps of
    their own here: the parameters go to [dispatch] as they are.  In the
    source [urlencode] runs before the [try], so a parameter it cannot
    encode (a string with a lone surrogate, as an undecodable byte of the
    command line gives) raises [UnicodeEncodeError] there, after the rate
    limiter and with no request sent.  The strings of this development are
    taken to be encodable. *)
Definition _make_request (ep : endpoint) (params : dict) : M pyval :=
  _rate_limit ;;
  let params := dict_set params "fmt" (PStr "json") in
  let headers := [("User-Agent", USER_AGENT); ("Accept", "application/json")] in
  o <- dispatch ep params headers ;;
  match o with
  | Responds data =>
      match json_loads env data with
      | Parsed doc => ret doc
      | JSONDecodeError text => raise (APIError ("Invalid JSON response: " ++ text))
      end
  | RaisesHTTPError code reason =>
      if code =? 404 then ret not_found_document
      else if code =? 503 then
        raise (APIError "MusicBrainz service unavailable (503). Try again later.")
      else if code =? 400 then
        raise (APIError "Bad request (400). Check your query parameters.")
      else raise (APIError ("HTTP " ++ str_of_int code ++ ": " ++ reason))
  | RaisesURLError reason => raise (APIError ("Network error: " ++ reason))
  | RaisesException text => raise (APIError ("Unexpected error: " ++ text))
  | RaisesKeyboardInterrupt => raise KeyboardInterrupt
  end.

(** *** Search *)

Definition search_artist (query : string) (limit : Z) : M pyval :=
  _make_request (Collection "artist")
    [("query", PStr query); ("limit", PInt (Z.min limit 100))].

Definition search_release (query : string) (limit : Z) : M pyval :=
  _make_request (Collection "release")
    [("query", PStr query); ("limit", PInt (Z.min limit 100))].

Definition search_recording (query : string) (limit : Z) : M pyval :=
  _make_request (Collection "recording")
    [("query", PStr query); ("limit", PInt (Z.min limit 100))].

Definition search_label (query : string) (limit : Z) : M pyval :=
  _make_request (Collection "label")
    [("query", PStr query); ("limit", PInt (Z.min limit 100))].

Definition search_by_tag (entity_type tag : string) (limit : Z) : M pyval :=
  _make_request (Collection entity_type)
    [("query", PStr ("tag:" ++ tag)); ("limit", PInt (Z.min limit 100))].

(** *** Lookup *)

(** [if o: d[k] = o] *)
Definition set_if_given (d : dict) (k : string) (o : option string) : dict :=
  match supplied o with
  | Some s => dict_set d k (PStr s)
  | None => d
  end.

Definition lookup_artist (mbid : pyval) (inc : option string) : M pyval :=
  _make_request (Entity "artist" mbid) (set_if_given [] "inc" inc).

Definition lookup_release (mbid : pyval) (inc : option string) : M pyval :=
  _make_request (Entity "release" mbid) (set_if_given [] "inc" inc).

Definition lookup_recording (mbid : pyval) (inc : option string) : M pyval :=
  _make_request (Entity "recording" mbid) (set_if_given [] "inc" inc).

Definition lookup_label (mbid : pyval) (inc : option string) : M pyval :=
  _make_request (Entity "label" mbid) (set_if_given [] "inc" inc).

(** *** Browse *)

Definition browse_releases_by_artist (artist_mbid : pyval) (limit : Z)
    (release_type status : option string) : M pyval :=
  let params := [("artist", artist_mbid); ("limit", PInt (Z.min limit 100))] in
  let params := set_if_given params "type" release_type in
  let params := set_if_given params "status" status in
  _make_request (Collection "release") params.

Definition browse_releases_by_label (label_mbid : pyval) (limit : Z)
    (release_type : option string) : M pyval :=
  let params := [("label", label_mbid); ("limit", PInt (Z.min limit 100))] in
  let params := set_if_given params "type" release_type in
  _make_request (Collection "release") params.

End Client.

(** ** Operations of the interpreter on values *)

Definition nl : string := String newline "".

(** [v.get(k, default)] *)
Definition py_get (v : pyval) (k : string) (default : pyval) : result pyval :=
  match v with
  | PDict d =>
      match dict_get d k with
      | Some x => Return x
      | None => Return default
      end
  | _ => Raise (Fault "AttributeError")
  end.

(** [v[0]] *)
Definition py_first (v : pyval) : result pyval :=
  match v with
  | PList (x :: _) => Return x
  | PList [] => Raise (Fault "IndexError")
  | PStr (String c _) => Return (PStr (String c ""))
  | PStr EmptyString => Raise (Fault "IndexError")
  | PDict _ => Raise (Fault "KeyError")
  | _ => Raise (Fault "TypeError")
  end.

(** [v[k]] for a string key *)
Definition py_item (v : pyval) (k : string) : result pyval :=
  match v with
  | PDict d =>
      match dict_get d k with
      | Some x => Return x
      | None => Raise (Fault "KeyError")
      end
  | _ => Raise (Fault "TypeError")
  end.

(** [l[:n]] on a list or a string *)
Definition slice_to {A} (n : Z) (l : list A) : list A :=
  if n <? 0 then firstn (Z.to_nat (Z.of_nat (List.length l) + n)) l
  else firstn (Z.to_nat n) l.

Definition chars (s : string) : list pyval :=
  map (fun c => PStr (String c "")) (list_ascii_of_string s).

(** [iter(v)]: the elements of a list, the characters of a string, the keys
    of a dict. *)
Definition py_iter (v : pyval) : result (list pyval) :=
  match v with
  | PList l => Return l
  | PStr s => Return (chars s)
  | PDict d => Return (map (fun kv => PStr (fst kv)) d)
  | _ => Raise (Fault "TypeError")
  end.

(** [iter(v[:n])] *)
Definition py_iter_slice (n : Z) (v : pyval) : result (list pyval) :=
  match v with
  | PList l => Return (slice_to n l)
  | PStr s => Return (slice_to n (chars s))
  | _ => Raise (Fault "TypeError")
  end.

(** [len(v)] *)
Definition py_len (v : pyval) : result Z :=
  match v with
  | PList l => Return (Z.of_nat (List.length l))
  | PStr s => Return (Z.of_nat (String.length s))
  | PDict d => Return (Z.of_nat (List.length d))
  | _ => Raise (Fault "TypeError")
  end.

(** [[f(x) for x in xs]] *)
Fixpoint comprehension {A B} (f : A -> result B) (xs : list A) : result (list B) :=
  match xs with
  | [] => Return []
  | x :: xs' =>
      match f x with
      | Raise e => Raise e
      | Return y =>
          match comprehension f xs' with
          | Raise e => Raise e
          | Return ys => Return (y :: ys)
          end
      end
  end.

(** [sep.join(items)]: every item has to be a [str]. *)
Fixpoint str_join (sep : string) (items : list pyval) : result string :=
  match items with
  | [] => Return ""
  | PStr s :: rest =>
      match rest with
      | [] => Return s
      | _ =>
          match str_join sep rest with
          | Return t => Return (s ++ sep ++ t)
          | Raise e => Raise e
          end
      end
  | _ :: _ => Raise (Fault "TypeError")
  end.

(** [sep.join(str(item) for item in items)], as the pieces of a line. *)
Fixpoint join_str (sep : string) (items : list pyval) : line :=
  match items with
  | [] => []
  | [x] => [Str x]
  | x :: rest => Str x :: Text sep :: join_str sep rest
  end.

(** [format(v, '>2')] is defined for [int], [bool] and [str]; [None], lists
    and dicts reject a non-empty format specification. *)
Definition py_format_right2 (v : pyval) : result fragment :=
  match v with
  | PInt _ | PBool _ | PStr _ => Return (Fmt v ">2")
  | _ => Raise (Fault "TypeError")
  end.

(** The integer a value stands for in arithmetic and comparisons ([bool] is
    a subclass of [int]). *)
Definition as_int (v : pyval) : option Z :=
  match v with
  | PInt n => Some n
  | PBool b => Some (if b then 1 else 0)
  | _ => None
  end.

(** ** src/main.py: helpers *)

Definition format_duration (milliseconds : pyval) : result string :=
  if negb (truthy milliseconds) then Return "0:00"
  else
    match as_int milliseconds with
    | None => Raise (Fault "TypeError")
    | Some ms =>
        if ms <? 0 then Return "0:00"
        else
          let seconds := ms / 1000 in
          let minutes := seconds / 60 in
          let seconds := seconds mod 60 in
          Return (str_of_int minutes ++ ":" ++ fmt_02d seconds)
    end.

Definition format_list (items : list pyval) (max_items : Z) : line :=
  match items with
  | [] => [Text "None"]
  | _ =>
      if Z.of_nat (List.length items) <=? max_items then join_str ", " items
      else (join_str ", " (slice_to max_items items) ++ [Text ", ..."])%list
  end.

Section Resolver.

Variable env : environment.

Definition resolve_artist_mbid (query : string) : M pyval :=
  if is_valid_mbid query then ret (PStr query)
  else
    results <- search_artist env query 1 ;;
    artists <- lift (py_get results "artists" (PList [])) ;;
    if negb (truthy artists)
    then raise (ValueError ("Artist '" ++ query ++ "' not found"))
    else
      first <- lift (py_first artists) ;;
      lift (py_item first "id").

Definition resolve_release_mbid (query : string) (artist : option string)
    : M pyval :=
  if is_valid_mbid query then ret (PStr query)
  else
    let search_query :=
      match supplied artist with
      | Some a =>
          "release:" ++ dquote ++ query ++ dquote ++
          " AND artist:" ++ dquote ++ a ++ dquote
      | None => query
      end in
    results <- search_release env search_query 1 ;;
    releases <- lift (py_get results "releases" (PList [])) ;;
    if negb (truthy releases)
    then
      match supplied artist with
      | Some a =>
          raise (ValueError ("Release '" ++ query ++ "' by '" ++ a ++ "' not found"))
      | None => raise (ValueError ("Release '" ++ query ++ "' not found"))
      end
    else
      first <- lift (py_first releases) ;;
      lift (py_item first "id").

End Resolver.

(** ** src/main.py: the commands *)

Inductive command : Type :=
| artist_info
| artist_releases
| album_info
| album_tracks.

(** The namespace [parse_args] returns.  [limit], [type] and [status] exist
    for [artist-releases], [artist] for the two album commands. *)
Record namespace : Type := {
  arg_command : command;
  arg_query : string;
  arg_limit : Z;
  arg_type : option string;
  arg_status : option string;
  arg_artist : option string
}.

Definition rule : string := repeat_string "=" 60.

Section Commands.

Variable env : environment.

(** The two [except] clauses every command ends with. *)
Definition command_handler (e : exn) : option (M unit) :=
  match e with
  | ValueError msg =>
      Some (print_err [Text (nl ++ "Error: " ++ msg)] ;; sys_exit 1)
  | APIError msg =>
      Some (print_err [Text (nl ++ "API Error: " ++ msg)] ;; sys_exit 2)
  | _ => None
  end.

(** [[x['name'] for x in v[:10]]] *)
Definition names_of (v : pyval) : result (list pyval) :=
  match py_iter_slice 10 v with
  | Raise e => Raise e
  | Return xs => comprehension (fun x => py_item x "name") xs
  end.

(** [', '.join([ac.get('name', 'Unknown') for ac in artist_credit])] *)
Definition credited (artist_credit : pyval) : result string :=
  match py_iter artist_credit with
  | Raise e => Raise e
  | Return acs =>
      match comprehension (fun ac => py_get ac "name" (PStr "Unknown")) acs with
      | Raise e => Raise e
      | Return ns => str_join ", " ns
      end
  end.

Definition artist_info_body (args : namespace) : M unit :=
  print [Text ("Searching for '" ++ arg_query args ++ "'...")] ;;
  mbid <- resolve_artist_mbid env (arg_query args) ;;
  artist <- lookup_artist env mbid (Some "tags+genres+aliases") ;;
  name <- lift (py_get artist "name" (PStr "Unknown")) ;;
  print [Text (nl ++ rule)] ;;
  print [Str name] ;;
  print [Text (rule ++ nl)] ;;
  id <- lift (py_get artist "id" (PStr "N/A")) ;;
  print [Text "MBID:    "; Str id] ;;
  type <- lift (py_get artist "type" (PStr "Unknown")) ;;
  print [Text "Type:    "; Str type] ;;
  country <- lift (py_get artist "country" (PStr "Unknown")) ;;
  print [Text "Country: "; Str country] ;;
  life_span <- lift (py_get artist "life-span" (PDict [])) ;;
  (if truthy life_span then
     begin <- lift (py_get life_span "begin" (PStr "?")) ;;
     ended <- lift (py_get life_span "ended" PNone) ;;
     if truthy ended then
       end_ <- lift (py_get life_span "end" (PStr "?")) ;;
       print [Text "Active:  "; Str begin; Text " - "; Str end_]
     else print [Text "Active:  "; Str begin; Text " - present"]
   else ret tt) ;;
  disambiguation <- lift (py_get artist "disambiguation" (PStr "")) ;;
  (if truthy disambiguation
   then print [Text "Note:    "; Str disambiguation]
   else ret tt) ;;
  tags <- lift (py_get artist "tags" (PList [])) ;;
  (if truthy tags then
     tag_names <- lift (names_of tags) ;;
     print (Text (nl ++ "Tags:    ") :: format_list tag_names 10)
   else ret tt) ;;
  genres <- lift (py_get artist "genres" (PList [])) ;;
  (if truthy genres then
     genre_names <- lift (names_of genres) ;;
     print (Text "Genres:  " :: format_list genre_names 10)
   else ret tt) ;;
  print [].

Definition cmd_artist_info (args : namespace) : M unit :=
  try_except (artist_info_body args) command_handler.

(** One turn of [for i, release in enumerate(releases, 1)]. *)
Definition release_entry (ir : Z * pyval) : M unit :=
  let (i, release) := ir in
  title <- lift (py_get release "title" (PStr "Unknown")) ;;
  date <- lift (py_get release "date" (PStr "Unknown date")) ;;
  status <- lift (py_get release "status" (PStr "Unknown")) ;;
  print [Fmt (PInt i) "3d"; Text ". "; Str title] ;;
  print [Text "      "; Str date; Text " | "; Str status] ;;
  id <- lift (py_get release "id" (PStr "N/A")) ;;
  print [Text "      MBID: "; Str id] ;;
  print [].

Fixpoint enumerate {A} (start : Z) (xs : list A) : list (Z * A) :=
  match xs with
  | [] => []
  | x :: xs' => (start, x) :: enumerate (start + 1) xs'
  end.

Definition artist_releases_body (args : namespace) : M unit :=
  print [Text ("Searching for '" ++ arg_query args ++ "'...")] ;;
  mbid <- resolve_artist_mbid env (arg_query args) ;;
  artist <- lookup_artist env mbid None ;;
  artist_name <- lift (py_get artist "name" (PStr "Unknown")) ;;
  print [Text "Found: "; Str artist_name; Text nl] ;;
  print [Text "Fetching releases..."] ;;
  releases_data <-
    browse_releases_by_artist env mbid (arg_limit args)
      (supplied (arg_type args)) (supplied (arg_status args)) ;;
  releases <- lift (py_get releases_data "releases" (PList [])) ;;
  if negb (truthy releases) then
    print [Text (nl ++ "No releases found for "); Str artist_name; Text "."]
  else
    len <- lift (py_len releases) ;;
    release_count <- lift (py_get releases_data "release-count" (PInt len)) ;;
    print [Text (nl ++ rule)] ;;
    print [Text "Releases by "; Str artist_name] ;;
    print [Text rule] ;;
    print [Text "Showing "; Str (PInt len); Text " of "; Str release_count;
           Text (" total releases" ++ nl)] ;;
    items <- lift (py_iter releases) ;;
    for_each (enumerate 1 items) release_entry.

Definition cmd_artist_releases (args : namespace) : M unit :=
  try_except (artist_releases_body args) command_handler.

(** [li.get('label', {}).get('name', 'Unknown')] *)
Definition label_name (li : pyval) : result pyval :=
  match py_get li "label" (PDict []) with
  | Raise e => Raise e
  | Return label => py_get label "name" (PStr "Unknown")
  end.

Definition album_info_body (args : namespace) : M unit :=
  print [Text ("Searching for '" ++ arg_query args ++ "'...")] ;;
  let artist_arg := supplied (arg_artist args) in
  mbid <- resolve_release_mbid env (arg_query args) artist_arg ;;
  release <- lookup_release env mbid (Some "artist-credits+labels+tags+genres") ;;
  title <- lift (py_get release "title" (PStr "Unknown")) ;;
  print [Text (nl ++ rule)] ;;
  print [Str title] ;;
  print [Text (rule ++ nl)] ;;
  id <- lift (py_get release "id" (PStr "N/A")) ;;
  print [Text "MBID:   "; Str id] ;;
  artist_credit <- lift (py_get release "artist-credit" (PList [])) ;;
  (if truthy artist_credit then
     artists <- lift (credited artist_credit) ;;
     print [Text ("Artist: " ++ artists)]
   else ret tt) ;;
  date <- lift (py_get release "date" (PStr "Unknown")) ;;
  print [Text "Date:   "; Str date] ;;
  status <- lift (py_get release "status" (PStr "Unknown")) ;;
  print [Text "Status: "; Str status] ;;
  country <- lift (py_get release "country" (PStr "Unknown")) ;;
  print [Text "Country: "; Str country] ;;
  label_info <- lift (py_get release "label-info" (PList [])) ;;
  (if truthy label_info then
     lis <- lift (py_iter label_info) ;;
     labels <- lift (comprehension label_name lis) ;;
     print (Text "Labels: " :: format_list labels 3)
   else ret tt) ;;
  barcode <- lift (py_get release "barcode" (PStr "")) ;;
  (if truthy barcode then print [Text "Barcode: "; Str barcode] else ret tt) ;;
  tags <- lift (py_get release "tags" (PList [])) ;;
  (if truthy tags then
     tag_names <- lift (names_of tags) ;;
     print (Text (nl ++ "Tags: ") :: format_list tag_names 10)
   else ret tt) ;;
  print [].

Definition cmd_album_info (args : namespace) : M unit :=
  try_except (album_info_body args) command_handler.

(** [format_duration(length) if length else "?"] *)
Definition track_duration (length : pyval) : result string :=
  if truthy length then format_duration length else Return "?".

(** One turn of [for track in tracks]. *)
Definition track_entry (track : pyval) : M unit :=
  position <- lift (py_get track "position" (PStr "?")) ;;
  track_title <- lift (py_get track "title" (PStr "Unknown")) ;;
  length <- lift (py_get track "length" (PInt 0)) ;;
  duration <- lift (track_duration length) ;;
  pos <- lift (py_format_right2 position) ;;
  print [Text "  "; pos; Text ". "; Str track_title;
         Text (" (" ++ duration ++ ")")].

(** One turn of [for medium in media]. *)
Definition medium_entry (medium : pyval) : M unit :=
  medium_position <- lift (py_get medium "position" (PInt 1)) ;;
  format_name <- lift (py_get medium "format" (PStr "Medium")) ;;
  track_count <- lift (py_get medium "track-count" (PInt 0)) ;;
  print [Str format_name; Text " "; Str medium_position; Text " (";
         Str track_count; Text " tracks):"] ;;
  print [] ;;
  tracks <- lift (py_get medium "tracks" (PList [])) ;;
  items <- lift (py_iter tracks) ;;
  for_each items track_entry ;;
  print [].

Definition album_tracks_body (args : namespace) : M unit :=
  print [Text ("Searching for '" ++ arg_query args ++ "'...")] ;;
  let artist_arg := supplied (arg_artist args) in
  mbid <- resolve_release_mbid env (arg_query args) artist_arg ;;
  release <- lookup_release env mbid (Some "recordings+artist-credits") ;;
  title <- lift (py_get release "title" (PStr "Unknown")) ;;
  artist_credit <- lift (py_get release "artist-credit" (PList [])) ;;
  artists <- lift (credited artist_credit) ;;
  print [Text (nl ++ rule)] ;;
  print [Str title] ;;
  print [Text ("by " ++ artists)] ;;
  print [Text (rule ++ nl)] ;;
  media <- lift (py_get release "media" (PList [])) ;;
  if negb (truthy media) then print [Text "No track information available."]
  else
    items <- lift (py_iter media) ;;
    for_each items medium_entry.

Definition cmd_album_tracks (args : namespace) : M unit :=
  try_except (album_tracks_body args) command_handler.

(** ** src/main.py: [main] *)

(** [args.func], as [set_defaults] binds it. *)
Definition func (c : command) : namespace -> M unit :=
  match c with
  | artist_info => cmd_artist_info
  | artist_releases => cmd_artist_releases
  | album_info => cmd_album_info
  | album_tracks => cmd_album_tracks
  end.

Definition main_handler (e : exn) : option (M unit) :=
  match e with
  | KeyboardInterrupt =>
      Some (print_err [Text (nl ++ nl ++ "Interrupted by user.")] ;;
            sys_exit 130)
  | _ =>
      if is_Exception e
      then Some (print_err [Text (nl ++ "Unexpected error: "); StrExn e] ;;
                 sys_exit 1)
      else None
  end.

(** [main()] once [parse_args] has returned [args]. *)
Definition main (args : namespace) : M unit :=
  set_last_request_time 0 ;;                       (* api = MusicBrainzAPI() *)
  try_except (func (arg_command args) args) main_handler.

End Commands.

(** The exit status of the process: 0 when [main] returns, the code of a
    [SystemExit]; what becomes of an exception nobody caught is left to the
    interpreter. *)
Definition exit_status {A} (r : result A) : option Z :=
  match r with
  | Return _ => Some 0
  | Raise (SystemExit code) => Some code
  | Raise _ => None
  end.

(** The world a process starts in, the wall clock showing [t0]. *)
Definition boot (t0 : Q) : world :=
  {| clock := t0; ticks := 0; last_request_time := 0; requests := [];
     stdout := []; stderr := [] |}.

(** * Vocabulary of the statements

    Definitions the properties below are stated with.  None of them is
    part of the program. *)

(** ** The environment and the client's state *)

Definition pauses_nonneg (env : environment) : Prop :=
  forall k, (0 <= pause env k)%Q.

(** The part of the world the client owns. *)
Definition same_client (w w' : world) : Prop :=
  last_request_time w' = last_request_time w /\ requests w' = requests w.

Definition same_output (w w' : world) : Prop :=
  stdout w' = stdout w /\ stderr w' = stderr w.

Fixpoint spaced (rs : list request) : Prop :=
  match rs with
  | [] => True
  | r :: rest =>
      match rest with
      | [] => True
      | r' :: _ => (req_time r + RATE_LIMIT <= req_time r')%Q /\ spaced rest
      end
  end.

(** The log is spaced and the client's timestamp is not behind the newest
    request. *)
Definition client_ok (w : world) : Prop :=
  spaced (requests w) /\
  forall r, List.last (map Some (requests w)) None = Some r ->
            (req_time r <= last_request_time w)%Q.

Definition keeps {A} (m : M A) : Prop :=
  forall w, client_ok w -> client_ok (snd (m w)).

(** ** What a request comes back with *)

(** The document the next request comes back with, when it comes back with
    one: the decoded body, or the not-found document on a 404. *)
Definition next_document (env : environment) (w : world) : option pyval :=
  match urlopen env (List.length (requests w)) with
  | Responds data =>
      match json_loads env data with
      | Parsed doc => Some doc
      | JSONDecodeError _ => None
      end
  | RaisesHTTPError code _ => if code =? 404 then Some not_found_document else None
  | _ => None
  end.

(** The search comes back with the not-found document of a 404, or with a
    document that has no list under [key]. *)
Definition comes_back_without (env : environment) (w : world) (key : string)
    : Prop :=
  (exists reason,
     urlopen env (List.length (requests w)) = RaisesHTTPError 404 reason) \/
  (exists data d,
     urlopen env (List.length (requests w)) = Responds data /\
     json_loads env data = Parsed (PDict d) /\
     dict_get d key = None).

(** [call] is a call of [_make_request] on [ep] whose parameters ask for
    [min(limit, 100)] results and hold a ['type'] (a ['status']) exactly
    when [release_type] ([status]) is given, an empty string counting as
    not given; the request that goes out carries these parameters, and the
    result of [call] is the result of [_make_request], in the world
    [_make_request] leaves. *)
Definition clamped_call (env : environment) (call : M pyval) (ep : endpoint)
    (limit : Z) (release_type status : option string) : Prop :=
  exists params,
    call = _make_request env ep params /\
    Z.min limit 100 <= 100 /\
    dict_get params "limit" = Some (PInt (Z.min limit 100)) /\
    dict_get params "type" = option_map PStr (supplied release_type) /\
    dict_get params "status" = option_map PStr (supplied status) /\
    forall w, exists r,
      requests (snd (call w)) = (requests w ++ [r])%list /\
      req_endpoint r = ep /\
      dict_get (req_params r) "limit" = Some (PInt (Z.min limit 100)) /\
      dict_get (req_params r) "type" = option_map PStr (supplied release_type) /\
      dict_get (req_params r) "status" = option_map PStr (supplied status).

(** ** The identifier shape

    The shape in the words of the specification: 32 hexadecimal digits in
    groups of 8-4-4-4-12 separated by hyphens, letters in either case.  It
    is compared with [is_valid_mbid], the test of the program, below. *)

Definition is_hex_digit (c : ascii) : bool :=
  in_range "0" "9" c || in_range "a" "f" c || in_range "A" "F" c.

Fixpoint take_hex (n : nat) (s : string) : option string :=
  match n with
  | O => Some s
  | S n' =>
      match s with
      | EmptyString => None
      | String c s' => if is_hex_digit c then take_hex n' s' else None
      end
  end.

Fixpoint grouped (sizes : list nat) (s : string) : bool :=
  match sizes with
  | [] => String.eqb s ""
  | n :: rest =>
      match take_hex n s with
      | None => false
      | Some s' =>
          match rest with
          | [] => String.eqb s' ""
          | _ =>
              match s' with
              | String c s'' => Ascii.eqb c "-" && grouped rest s''
              | EmptyString => false
              end
          end
      end
  end.

Definition mbid_shape (s : string) : bool := grouped [8; 4; 4; 4; 12]%nat s.

(** ** The identifier pattern, group by group *)

(** The atoms of hyphen-separated groups of hexadecimal digits, and what
    they accept when [$] closes the pattern. *)
Fixpoint group_atoms (sizes : list nat) : list atom :=
  match sizes with
  | [] => []
  | n :: rest =>
      match rest with
      | [] => repeat hex_class n
      | _ => repeat hex_class n ++ Lit "-"%char :: group_atoms rest
      end
  end.

Fixpoint grouped_eol (sizes : list nat) (s : string) : bool :=
  match sizes with
  | [] => at_eol s
  | n :: rest =>
      match take_hex n s with
      | None => false
      | Some s' =>
          match rest with
          | [] => at_eol s'
          | _ =>
              match s' with
              | String c s'' => Ascii.eqb c "-" && grouped_eol rest s''
              | EmptyString => false
              end
          end
      end
  end.

(** ** The resolvers, step by step *)

(** The text [resolve_release_mbid] searches for. *)
Definition release_search_text (query : string) (artist : option string)
    : string :=
  match supplied artist with
  | Some a =>
      "release:" ++ dquote ++ query ++ dquote ++
      " AND artist:" ++ dquote ++ a ++ dquote
  | None => query
  end.

Definition release_not_found (query : string) (artist : option string)
    : string :=
  match supplied artist with
  | Some a => "Release '" ++ query ++ "' by '" ++ a ++ "' not found"
  | None => "Release '" ++ query ++ "' not found"
  end.

(** What a resolver makes of the document its search returned. *)
Definition first_id (key : string) (not_found : string) (results : pyval)
    : result pyval :=
  match py_get results key (PList []) with
  | Raise e => Raise e
  | Return found =>
      if truthy found then
        match py_first found with
        | Raise e => Raise e
        | Return first => py_item first "id"
        end
      else Raise (ValueError not_found)
  end.

Definition and_then {A B} (r : result A) (k : A -> result B) : result B :=
  match r with
  | Return a => k a
  | Raise e => Raise e
  end.

(** ** Rendering *)

(** The decimal digit [d] as a character, and the two-digit rendering of a
    number below one hundred. *)
Definition digit (d : Z) : ascii := ascii_of_N (48 + Z.to_N d).

Definition two_digits (n : Z) : string :=
  String (digit (n / 10)) (String (digit (n mod 10)) "").

Definition field (d : dict) (k : string) (default : pyval) : pyval :=
  match dict_get d k with
  | Some v => v
  | None => default
  end.

(** The line of the track [d] with the duration [duration]: printed, unless
    the position of the track cannot be formatted. *)
Definition track_line (d : dict) (duration : string) : M unit :=
  fun w =>
    match py_format_right2 (field d "position" (PStr "?")) with
    | Raise e => (Raise e, w)
    | Return pos =>
        print [Text "  "; pos; Text ". ";
               Str (field d "title" (PStr "Unknown"));
               Text (" (" ++ duration ++ ")")] w
    end.

(** ** The command layer *)

(** The body of the [try] of each command. *)
Definition command_body (env : environment) (c : command)
    : namespace -> M unit :=
  match c with
  | artist_info => artist_info_body env
  | artist_releases => artist_releases_body env
  | album_info => album_info_body env
  | album_tracks => album_tracks_body env
  end.

(** The world once [main] has created the client. *)
Definition started (w : world) : world := snd (set_last_request_time 0 w).

Definition with_stderr (l : line) (w : world) : world := snd (print_err l w).

(** The list a command's resolver reads in the document of its search. *)
Definition result_key (c : command) : string :=
  match c with
  | artist_info | artist_releases => "artists"
  | album_info | album_tracks => "releases"
  end.

(** The message of the resolution failure of a command. *)
Definition not_found_message (args : namespace) : string :=
  match arg_command args with
  | artist_info | artist_releases =>
      "Artist '" ++ arg_query args ++ "' not found"
  | album_info | album_tracks =>
      release_not_found (arg_query args) (supplied (arg_artist args))
  end.

(** ** Data for examples *)

(** An environment for examples: every operation takes a quarter of a
    second, every request is answered with 404. *)
Definition quiet_env : environment :=
  {| pause := fun _ => 1 # 4;
     urlopen := fun _ => RaisesHTTPError 404 "Not Found";
     json_loads := fun _ => JSONDecodeError "Expecting value" |}.

Definition radiohead : string := "a74b1b7f-71a5-4011-9441-d0b5e4122711".

Definition ok_computer : namespace :=
  {| arg_command := album_tracks; arg_query := "OK Computer"; arg_limit := 25;
     arg_type := None; arg_status := None; arg_artist := Some "Radiohead" |}.

Definition airbag : dict :=
  [("position", PStr "1"); ("title", PStr "Airbag"); ("length", PInt 285000)].

Definition untimed : dict :=
  [("position", PStr "2"); ("title", PStr "Paranoid Android")].

(** A service that knows one release: the first request is answered with
    the result of a search, the second with the release and its tracks. *)
Definition found_release : pyval :=
  PDict [("releases",
          PList [PDict [("id", PStr "0b6b4ba0-d36f-47bd-b4ea-6a5b91842d29");
                        ("title", PStr "OK Computer")]])].

Definition release_with_tracks : pyval :=
  PDict [("id", PStr "0b6b4ba0-d36f-47bd-b4ea-6a5b91842d29");
         ("title", PStr "OK Computer");
         ("artist-credit", PList [PDict [("name", PStr "Radiohead")]]);
         ("media",
          PList [PDict [("position", PInt 1); ("format", PStr "CD");
                        ("track-count", PInt 2);
                        ("tracks",
                         PList [PDict airbag; PDict untimed])]])].

Definition record_shop : environment :=
  {| pause := fun _ => 1 # 10;
     urlopen := fun k => match k with
                         | O => Responds "search"
                         | _ => Responds "release"
                         end;
     json_loads := fun data =>
       if String.eqb data "search" then Parsed found_release
       else if String.eqb data "release" then Parsed release_with_tracks
       else JSONDecodeError "Expecting value" |}.

(** A service that is down, and a user who interrupts the first request. *)
Definition out_of_service : environment :=
  {| pause := fun _ => 0%Q;
     urlopen := fun _ => RaisesHTTPError 503 "Service Unavailable";
     json_loads := fun _ => JSONDecodeError "Expecting value" |}.

Definition impatient_user : environment :=
  {| pause := fun _ => 0%Q;
     urlopen := fun _ => RaisesKeyboardInterrupt;
     json_loads := fun _ => JSONDecodeError "Expecting value" |}.

(** * Vocabulary of the further properties *)

(** ** Letter case *)

Fixpoint string_map (f : ascii -> ascii) (s : string) : string :=
  match s with
  | EmptyString => EmptyString
  | String c s' => String (f c) (string_map f s')
  end.

(** The letters [A]..[Z] of a string replaced by [a]..[z], every other
    character kept.  (Not [str.lower], which also maps letters outside
    ASCII.) *)
Definition fold_ascii_case (s : string) : string := string_map to_lower s.

(** Two strings that differ at most in the case of letters of ASCII. *)
Definition same_up_to_ascii_case (s t : string) : Prop :=
  fold_ascii_case s = fold_ascii_case t.

(** ** Requests *)

(** The request [_make_request ep params] sends when the client's timestamp
    is [t]. *)
Definition sent (ep : endpoint) (params : dict) (t : Q) : request :=
  {| req_endpoint := ep;
     req_params := dict_set params "fmt" (PStr "json");
     req_headers := [("User-Agent", USER_AGENT); ("Accept", "application/json")];
     req_timeout := REQUEST_TIMEOUT;
     req_time := t |}.

Definition keys (d : dict) : list string := map fst d.

(** ** What a computation does to the world *)

Definition well_formed (r : request) : Prop :=
  dict_get (req_params r) "fmt" = Some (PStr "json") /\
  req_headers r = [("User-Agent", USER_AGENT); ("Accept", "application/json")] /\
  req_timeout r = REQUEST_TIMEOUT.

(** [effect n m]: run in any world, [m] sends at most [n] requests, each of
    them well formed, adds lines to the standard output and leaves the
    error stream alone. *)
Definition effect (n : nat) {A} (m : M A) : Prop :=
  forall w,
    (exists new,
       requests (snd (m w)) = (requests w ++ new)%list /\
       (List.length new <= n)%nat /\ Forall well_formed new) /\
    (exists out, stdout (snd (m w)) = (stdout w ++ out)%list) /\
    stderr (snd (m w)) = stderr w.

(** The searches of a resolver and the other requests of a command. *)
Definition search_cost (query : string) : nat :=
  if is_valid_mbid query then 0%nat else 1%nat.

Definition lookups (c : command) : nat :=
  match c with
  | artist_releases => 2%nat
  | _ => 1%nat
  end.

Definition searching (args : namespace) : line :=
  [Text ("Searching for '" ++ arg_query args ++ "'...")].

(** ** What a computation raises *)

(** Every exception of the computation [m], of the result [r], satisfies
    [P]. *)
Definition throws (P : exn -> Prop) {A} (m : M A) : Prop :=
  forall w e, fst (m w) = Raise e -> P e.

Definition fails_with (P : exn -> Prop) {A} (r : result A) : Prop :=
  forall e, r = Raise e -> P e.

Definition is_fault (e : exn) : Prop := exists cls, e = Fault cls.

(** The exceptions of the client: a failed exchange, or the user's
    interrupt. *)
Definition from_client (e : exn) : Prop :=
  (exists msg, e = APIError msg) \/ e = KeyboardInterrupt.

(** ** Lines as text *)

(** [str(v)] for the values whose text does not depend on [repr]: [None],
    booleans, integers and strings. *)
Definition py_str (v : pyval) : option string :=
  match v with
  | PNone => Some "None"
  | PBool true => Some "True"
  | PBool false => Some "False"
  | PInt n => Some (str_of_int n)
  | PStr s => Some s
  | PList _ | PDict _ => None
  end.

(** The text of a line made of literal text and such values. *)
Fixpoint render (l : line) : option string :=
  match l with
  | [] => Some ""
  | f :: l' =>
      match f, render l' with
      | Text s, Some t => Some (s ++ t)
      | Str v, Some t =>
          match py_str v with
          | Some s => Some (s ++ t)
          | None => None
          end
      | _, _ => None
      end
  end.

(** ** More data for examples *)

(** A service whose only result has no identifier. *)
Definition nameless_result : environment :=
  {| pause := fun _ => 0%Q;
     urlopen := fun _ => Responds "search";
     json_loads := fun _ =>
       Parsed (PDict [("releases", PList [PDict [("title", PStr "OK Computer")]])]) |}.

(** ** Placeholders *)

(** What a command prints, after its first line, about a document that has
    none of the fields it reads. *)
Definition placeholders (c : command) : list line :=
  match c with
  | artist_info =>
      [ [Text (nl ++ rule)]; [Str (PStr "Unknown")]; [Text (rule ++ nl)];
        [Text "MBID:    "; Str (PStr "N/A")];
        [Text "Type:    "; Str (PStr "Unknown")];
        [Text "Country: "; Str (PStr "Unknown")];
        [] ]
  | artist_releases =>
      [ [Text "Found: "; Str (PStr "Unknown"); Text nl];
        [Text "Fetching releases..."];
        [Text (nl ++ "No releases found for "); Str (PStr "Unknown"); Text "."] ]
  | album_info =>
      [ [Text (nl ++ rule)]; [Str (PStr "Unknown")]; [Text (rule ++ nl)];
        [Text "MBID:   "; Str (PStr "N/A")];
        [Text "Date:   "; Str (PStr "Unknown")];
        [Text "Status: "; Str (PStr "Unknown")];
        [Text "Country: "; Str (PStr "Unknown")];
        [] ]
  | album_tracks =>
      [ [Text (nl ++ rule)]; [Str (PStr "Unknown")]; [Text "by "];
        [Text (rule ++ nl)];
        [Text "No track information available."] ]
  end.

(** ** The list of releases *)

(** The four lines [artist-releases] prints for the release [d] under the
    number [i]. *)
Definition release_block (i : Z) (d : dict) : list line :=
  [ [Fmt (PInt i) "3d"; Text ". "; Str (field d "title" (PStr "Unknown"))];
    [Text "      "; Str (field d "date" (PStr "Unknown date")); Text " | ";
     Str (field d "status" (PStr "Unknown"))];
    [Text "      MBID: "; Str (field d "id" (PStr "N/A"))];
    [] ].

Definition release_blocks (start : Z) (ds : list dict) : list line :=
  flat_map (fun id => release_block (fst id) (snd id)) (enumerate start ds).

(** The world with [out] added to the standard output. *)
Definition add_stdout (out : list line) (w : world) : world :=
  {| clock := clock w; ticks := ticks w;
     last_request_time := last_request_time w; requests := requests w;
     stdout := stdout w ++ out; stderr := stderr w |}.

Definition is_dict (v : pyval) : bool :=
  match v with
  | PDict _ => true
  | _ => false
  end.

(** ** A request that fails *)

(** The exception the next request ends with, when it ends with one. *)
Definition next_error (env : environment) (w : world) : option exn :=
  match urlopen env (List.length (requests w)) with
  | Responds data =>
      match json_loads env data with
      | Parsed _ => None
      | JSONDecodeError text => Some (APIError ("Invalid JSON response: " ++ text))
      end
  | RaisesHTTPError code reason =>
      if code =? 404 then None
      else if code =? 503 then
        Some (APIError "MusicBrainz service unavailable (503). Try again later.")
      else if code =? 400 then
        Some (APIError "Bad request (400). Check your query parameters.")
      else Some (APIError ("HTTP " ++ str_of_int code ++ ": " ++ reason))
  | RaisesURLError reason => Some (APIError ("Network error: " ++ reason))
  | RaisesException text => Some (APIError ("Unexpected error: " ++ text))
  | RaisesKeyboardInterrupt => Some KeyboardInterrupt
  end.

(** ** The tracks of a medium *)

(** The line of the track [d], when its duration and its position can be
    rendered. *)
Definition track_row (d : dict) : option line :=
  match track_duration (field d "length" (PInt 0)),
        py_format_right2 (field d "position" (PStr "?")) with
  | Return duration, Return pos =>
      Some [Text "  "; pos; Text ". "; Str (field d "title" (PStr "Unknown"));
            Text (" (" ++ duration ++ ")")]
  | _, _ => None
  end.

Definition medium_heading (m : dict) : line :=
  [Str (field m "format" (PStr "Medium")); Text " ";
   Str (field m "position" (PInt 1)); Text " (";
   Str (field m "track-count" (PInt 0)); Text " tracks):"].

(** The name under which an artist credit is listed. *)
Definition credit_name (ac : dict) : pyval := field ac "name" (PStr "Unknown").

(** * Properties *)

(** ** Running the monad *)

Lemma bind_Return {A B} (m : M A) (k : A -> M B) w a w' :
  m w = (Return a, w') -> bind m k w = k a w'.
Proof. intros H. unfold bind. now rewrite H. Qed.

Lemma bind_Raise {A B} (m : M A) (k : A -> M B) w e w' :
  m w = (Raise e, w') -> bind m k w = (Raise e, w').
Proof. intros H. unfold bind. now rewrite H. Qed.


(** ** The rate limiter *)

Lemma Qltb_true x y : Qltb x y = true -> (x < y)%Q.
Proof.
  unfold Qltb. intros H. apply negb_true_iff in H.
  destruct (Qlt_le_dec x y) as [L | L]; [exact L |].
  apply Qle_bool_iff in L. congruence.
Qed.

Lemma Qltb_false x y : Qltb x y = false -> (y <= x)%Q.
Proof.
  unfold Qltb. intros H. apply negb_false_iff in H.
  now apply Qle_bool_iff.
Qed.

Section RateLimit.

Variable env : environment.

(** [_rate_limit] always returns; it leaves the log and the output alone,
    stores the clock reading it ends with, and that reading is at least
    [RATE_LIMIT] later than the timestamp it found. *)
Lemma rate_limit_run w :
  exists w',
    _rate_limit env w = (Return tt, w') /\
    requests w' = requests w /\ same_output w w' /\
    last_request_time w' = clock w' /\
    (pauses_nonneg env ->
     (last_request_time w + RATE_LIMIT <= last_request_time w')%Q).
Proof.
  unfold _rate_limit, bind, time_time, get_last_request_time,
    set_last_request_time, time_sleep, ret, elapse; cbn.
  destruct (Qltb _ RATE_LIMIT) eqn:E; cbn.
  - eexists; repeat split; cbn.
    intros P. apply Qltb_true in E. unfold RATE_LIMIT in *.
    pose proof (P (ticks w)). pose proof (P (S (ticks w))).
    pose proof (P (S (S (ticks w)))). lra.
  - eexists; repeat split; cbn.
    intros P. apply Qltb_false in E. unfold RATE_LIMIT in *.
    pose proof (P (ticks w)). pose proof (P (S (ticks w))). lra.
Qed.

(** What [_make_request] leaves in the log: one more request, carrying the
    parameters with [fmt=json] added, the two fixed headers, and the
    timestamp the rate limiter stored just before. *)
Lemma make_request_log ep params w :
  exists r,
    requests (snd (_make_request env ep params w)) = (requests w ++ [r])%list /\
    req_endpoint r = ep /\
    req_params r = dict_set params "fmt" (PStr "json") /\
    req_headers r = [("User-Agent", USER_AGENT); ("Accept", "application/json")] /\
    req_time r = last_request_time (snd (_make_request env ep params w)) /\
    same_output w (snd (_make_request env ep params w)) /\
    (exists k, ticks (snd (_make_request env ep params w)) = S k /\
               clock (snd (_make_request env ep params w)) ==
               req_time r + pause env k)%Q /\
    (pauses_nonneg env -> (last_request_time w + RATE_LIMIT <= req_time r)%Q).
Proof.
  destruct (rate_limit_run w) as (w1 & R & Hreq & [Ho He] & Hlast & Hgap).
  unfold _make_request. rewrite (bind_Return _ _ _ _ _ R).
  unfold bind, dispatch; cbn.
  eexists; split.
  - destruct (urlopen env _) as [data | code reason | reason | text |]; cbn;
      [ destruct (json_loads env data)
      | destruct (code =? 404); [| destruct (code =? 503); [| destruct (code =? 400)]]
      | | | ]; cbn; rewrite Hreq; reflexivity.
  - cbn. repeat split; try assumption;
      destruct (urlopen env _) as [data | code reason | reason | text |]; cbn;
      try destruct (json_loads env data);
      try (destruct (code =? 404); [| destruct (code =? 503); [| destruct (code =? 400)]]);
      cbn; auto;
      exists (ticks w1); (split; [reflexivity | rewrite Hlast; ring]).
Qed.

End RateLimit.

(** C1.  Two consecutive requests through the client are initiated at
    least [RATE_LIMIT] (one second) apart.  Whatever the program does between
    two calls of [_make_request], as long as it leaves the client's timestamp
    and log alone, the second request carries a timestamp at least
    [RATE_LIMIT] after the first one's.  The timestamp of a request is the
    clock reading stored before dispatch: when the call has completed the
    clock is ahead of it by the time the exchange took.  The clock never
    runs backwards and [time.sleep] never returns early: pauses are not
    negative. *)
Theorem consecutive_requests_spaced
    env ep1 ps1 ep2 ps2 (between : world -> world) w :
  pauses_nonneg env ->
  (forall x, same_client x (between x)) ->
  let w1 := snd (_make_request env ep1 ps1 w) in
  let w2 := snd (_make_request env ep2 ps2 (between w1)) in
  exists r1 r2,
    requests w2 = (requests w ++ [r1; r2])%list /\
    req_time r1 = last_request_time w1 /\
    (exists k, ticks w1 = S k /\ clock w1 == req_time r1 + pause env k)%Q /\
    (req_time r1 + RATE_LIMIT <= req_time r2)%Q.
Proof.
  intros P B w1 w2.
  destruct (make_request_log env ep1 ps1 w)
    as (r1 & L1 & _ & _ & _ & T1 & _ & K1 & _).
  destruct (make_request_log env ep2 ps2 (between w1))
    as (r2 & L2 & _ & _ & _ & _ & _ & _ & G2).
  destruct (B w1) as [Bl Br].
  exists r1, r2. repeat split.
  - subst w2. rewrite L2, Br. subst w1. rewrite L1.
    now rewrite <- app_assoc.
  - exact T1.
  - exact K1.
  - specialize (G2 P). rewrite Bl in G2. fold w1 in T1. now rewrite T1.
Qed.

Lemma consecutive_requests_spaced_witness :
  let w1 := snd (_make_request quiet_env (Collection "artist") [] (boot 1000)) in
  let w2 := snd (_make_request quiet_env (Collection "release") [] w1) in
  exists r1 r2,
    requests w2 = (requests (boot 1000) ++ [r1; r2])%list /\
    req_time r1 = last_request_time w1 /\
    (exists k, ticks w1 = S k /\ clock w1 == req_time r1 + pause quiet_env k)%Q /\
    (req_time r1 + RATE_LIMIT <= req_time r2)%Q.
Proof.
  apply (consecutive_requests_spaced quiet_env (Collection "artist") []
           (Collection "release") [] (fun x => x) (boot 1000)).
  - intros k. cbn. lra.
  - intros x. split; reflexivity.
Defined.

(** ** Substrings *)

Lemma prefix_app s t : prefix s (s ++ t) = true.
Proof.
  induction s as [| a s IH]; cbn; [now destruct t |].
  destruct (ascii_dec a a); [exact IH | contradiction].
Qed.

Lemma contains_unfold sub s :
  contains sub s =
  (prefix sub s ||
   match s with EmptyString => false | String _ s' => contains sub s' end).
Proof. destruct s; reflexivity. Qed.

Lemma contains_here sub post : contains sub (sub ++ post) = true.
Proof. rewrite contains_unfold, prefix_app. reflexivity. Qed.

Lemma contains_app pre sub post : contains sub (pre ++ sub ++ post) = true.
Proof.
  induction pre as [| a pre IH]; cbn [append].
  - apply contains_here.
  - rewrite contains_unfold, IH. apply orb_true_r.
Qed.

Lemma contains_end pre sub : contains sub (pre ++ sub) = true.
Proof.
  replace sub with (sub ++ "") at 2; [apply contains_app |].
  induction sub; cbn; congruence.
Qed.

(** ** Classification of transport outcomes *)

(** C4.  What [_make_request] makes of the outcome of the exchange: a 404
    is answered with the not-found document, returned like any other
    document; a 503 raises [APIError] with "503" in the message; a body
    that [json.loads] rejects raises [APIError] with a message that says so
    and quotes the parser's complaint; any other HTTP status raises
    [APIError] with the status code in the message; a network failure and
    any other [Exception] raise [APIError] with their cause in the message.
    (An interrupt by the user is no [Exception] and passes through.) *)
Theorem make_request_classifies env ep params w :
  let r := fst (_make_request env ep params w) in
  match urlopen env (List.length (requests w)) with
  | Responds data =>
      match json_loads env data with
      | Parsed doc => r = Return doc
      | JSONDecodeError text =>
          exists msg, r = Raise (APIError msg) /\
                      contains "Invalid JSON" msg = true /\
                      contains text msg = true
      end
  | RaisesHTTPError code reason =>
      if code =? 404 then r = Return not_found_document
      else if code =? 503 then
        exists msg, r = Raise (APIError msg) /\ contains "503" msg = true
      else
        exists msg, r = Raise (APIError msg) /\
                    contains (str_of_int code) msg = true
  | RaisesURLError reason =>
      exists msg, r = Raise (APIError msg) /\ contains reason msg = true
  | RaisesException text =>
      exists msg, r = Raise (APIError msg) /\ contains text msg = true
  | RaisesKeyboardInterrupt => r = Raise KeyboardInterrupt
  end.
Proof.
  destruct (rate_limit_run env w) as (w1 & R & Hreq & _).
  unfold _make_request. rewrite (bind_Return _ _ _ _ _ R).
  unfold bind, dispatch. rewrite Hreq. cbn.
  destruct (urlopen env _) as [data | code reason | reason | text |]; cbn.
  - destruct (json_loads env data) as [doc | text]; cbn; [reflexivity |].
    eexists; split; [reflexivity |]. split.
    + apply (contains_app "" "Invalid JSON" (" response: " ++ text)).
    + apply (contains_end "Invalid JSON response: " text).
  - destruct (code =? 404) eqn:E404; cbn; [reflexivity |].
    destruct (code =? 503) eqn:E503; cbn.
    { eexists; split; reflexivity. }
    destruct (code =? 400) eqn:E400; cbn.
    + apply Z.eqb_eq in E400. subst code.
      eexists; split; reflexivity.
    + eexists; split; [reflexivity |].
      apply (contains_app "HTTP " (str_of_int code) (": " ++ reason)).
  - eexists; split; [reflexivity |].
    apply (contains_end "Network error: " reason).
  - eexists; split; [reflexivity |].
    apply (contains_end "Unexpected error: " text).
  - reflexivity.
Qed.

(** ** The search and browse wrappers *)

Lemma dict_get_set_other d k v k' :
  String.eqb k' k = false -> dict_get (dict_set d k v) k' = dict_get d k'.
Proof.
  intros N. induction d as [| [k0 v0] d IH]; cbn.
  - now rewrite N.
  - destruct (String.eqb k k0) eqn:E; cbn.
    + apply String.eqb_eq in E. subst k0. now rewrite N.
    + now rewrite IH.
Qed.


Lemma clamped_call_intro env ep params limit release_type status :
  dict_get params "limit" = Some (PInt (Z.min limit 100)) ->
  dict_get params "type" = option_map PStr (supplied release_type) ->
  dict_get params "status" = option_map PStr (supplied status) ->
  clamped_call env (_make_request env ep params) ep limit release_type status.
Proof.
  intros Hl Ht Hs. exists params. repeat split; try assumption.
  - apply Z.le_min_r.
  - intros w.
    destruct (make_request_log env ep params w) as (r & L & E & Pm & _).
    exists r. rewrite Pm, !dict_get_set_other by reflexivity.
    repeat split; assumption.
Qed.

(** C8.  Each of the seven search and browse wrappers asks for at most 100
    results ([min(limit, 100)]), puts the optional type and status filters
    among the parameters only when they are given, and returns what
    [_make_request] returns. *)
Theorem wrappers_clamp_and_pass_through env :
  (forall query limit,
     clamped_call env (search_artist env query limit)
       (Collection "artist") limit None None) /\
  (forall query limit,
     clamped_call env (search_release env query limit)
       (Collection "release") limit None None) /\
  (forall query limit,
     clamped_call env (search_recording env query limit)
       (Collection "recording") limit None None) /\
  (forall query limit,
     clamped_call env (search_label env query limit)
       (Collection "label") limit None None) /\
  (forall entity_type tag limit,
     clamped_call env (search_by_tag env entity_type tag limit)
       (Collection entity_type) limit None None) /\
  (forall artist_mbid limit release_type status,
     clamped_call env
       (browse_releases_by_artist env artist_mbid limit release_type status)
       (Collection "release") limit release_type status) /\
  (forall label_mbid limit release_type,
     clamped_call env
       (browse_releases_by_label env label_mbid limit release_type)
       (Collection "release") limit release_type None).
Proof.
  repeat split; intros;
    try (apply clamped_call_intro; reflexivity).
  - unfold browse_releases_by_artist, set_if_given.
    apply clamped_call_intro;
      destruct (supplied release_type), (supplied status); reflexivity.
  - unfold browse_releases_by_label, set_if_given.
    apply clamped_call_intro; destruct (supplied release_type); reflexivity.
Qed.

(** ** Durations *)

Lemma fmt_02d_two_digits n : 0 <= n < 60 -> fmt_02d n = two_digits n.
Proof.
  intros H.
  assert (E : exists k, (k < 60)%nat /\ n = Z.of_nat k).
  { exists (Z.to_nat n). split; lia. }
  destruct E as (k & Hk & ->). clear H.
  do 60 (destruct k as [| k]; [vm_compute; reflexivity |]).
  lia.
Qed.

(** [format_duration] on an [int]. *)
Lemma format_duration_int ms :
  format_duration (PInt ms) =
  Return (if ms <=? 0 then "0:00"
          else str_of_int (ms / 60000) ++ ":" ++ two_digits ((ms / 1000) mod 60)).
Proof.
  unfold format_duration. cbn [truthy as_int].
  destruct (ms =? 0) eqn:E0; cbn [negb].
  - apply Z.eqb_eq in E0. subst ms. reflexivity.
  - apply Z.eqb_neq in E0.
    destruct (ms <? 0) eqn:Eneg.
    + apply Z.ltb_lt in Eneg.
      replace (ms <=? 0) with true by (symmetry; apply Z.leb_le; lia).
      reflexivity.
    + apply Z.ltb_ge in Eneg.
      replace (ms <=? 0) with false by (symmetry; apply Z.leb_gt; lia).
      rewrite Z.div_div by lia. change (1000 * 60) with 60000.
      rewrite fmt_02d_two_digits; [reflexivity |].
      apply Z.mod_pos_bound. lia.
Qed.

(** C7.  [format_duration] floors milliseconds to whole seconds and renders
    minutes, a colon and the seconds on two digits; the minutes are the
    whole minutes of the duration, not wrapped at sixty.  Zero, a negative
    number and [None] give "0:00". *)
Theorem format_duration_spec :
  (forall ms,
     format_duration (PInt ms) =
     Return (if ms <=? 0 then "0:00"
             else str_of_int (ms / 60000) ++ ":" ++
                  two_digits ((ms / 1000) mod 60))) /\
  format_duration PNone = Return "0:00" /\
  format_duration (PInt 285000) = Return "4:45" /\
  format_duration (PInt 383000) = Return "6:23" /\
  format_duration (PInt 3600000) = Return "60:00".
Proof.
  split; [exact format_duration_int | repeat split].
Qed.

(** ** The track list *)

(** One turn of the loop over the tracks of a medium, spelled out. *)
Lemma track_entry_run (d : dict) (w : world) :
  track_entry (PDict d) w =
  match track_duration (field d "length" (PInt 0)) with
  | Raise e => (Raise e, w)
  | Return duration => track_line d duration w
  end.
Proof.
  unfold track_entry, track_line, bind, lift, py_get, field.
  destruct (dict_get d "position") as [p |], (dict_get d "title") as [t |],
    (dict_get d "length") as [l |]; cbv beta iota;
    (destruct (track_duration _) as [duration | e]; [| reflexivity]);
    (destruct (py_format_right2 _) as [pos | e]; reflexivity).
Qed.

(** C10.  In the track list of [album-tracks], a track whose ['length'] is
    missing, zero or otherwise falsy gets the duration "?" (not "0:00":
    [format_duration] is not called), and a track with a positive length
    gets [format_duration] of that length. *)
Theorem track_entry_duration (d : dict) (w : world) :
  let length := field d "length" (PInt 0) in
  (truthy length = false ->
   track_entry (PDict d) w = track_line d "?" w) /\
  (forall ms, length = PInt ms -> 0 < ms ->
   exists duration,
     format_duration (PInt ms) = Return duration /\
     track_entry (PDict d) w = track_line d duration w).
Proof.
  intros length. subst length.
  rewrite track_entry_run. unfold track_duration.
  split.
  - intros F. rewrite F. reflexivity.
  - intros ms E Hms. rewrite E.
    eexists; split; [apply format_duration_int |].
    assert (T : truthy (PInt ms) = true).
    { cbn. apply negb_true_iff, Z.eqb_neq. lia. }
    rewrite T, format_duration_int. reflexivity.
Qed.

Lemma track_entry_duration_witness :
  track_entry (PDict untimed) (boot 0) = track_line untimed "?" (boot 0) /\
  exists duration,
    format_duration (PInt 285000) = Return duration /\
    track_entry (PDict airbag) (boot 0) = track_line airbag duration (boot 0).
Proof.
  split.
  - apply (proj1 (track_entry_duration untimed (boot 0))). reflexivity.
  - apply (proj2 (track_entry_duration airbag (boot 0)) 285000 eq_refl).
    reflexivity.
Defined.

(** ** The identifier test against the identifier shape *)

Lemma class_hex c :
  class_matches true [("0", "9"); ("a", "f")]%char c = is_hex_digit c.
Proof. destruct c as [[] [] [] [] [] [] [] []]; vm_compute; reflexivity. Qed.

Lemma lit_hyphen c : lit_matches true "-" c = Ascii.eqb c "-".
Proof. destruct c as [[] [] [] [] [] [] [] []]; vm_compute; reflexivity. Qed.

(** A counted repetition of the hexadecimal class consumes exactly that
    many hexadecimal digits. *)
Lemma match_hex_run n p : forall b s,
  re_match_here true (repeat hex_class n ++ p) b s =
  match take_hex n s with
  | Some s' => re_match_here true p (match n with O => b | S _ => false end) s'
  | None => false
  end.
Proof.
  induction n as [| n IH]; intros b s; [reflexivity |].
  cbn [repeat app]. unfold hex_class at 1. cbn [re_match_here take_hex].
  destruct s as [| x s']; [reflexivity |].
  rewrite class_hex. destruct (is_hex_digit x); [| reflexivity].
  cbn [andb]. rewrite IH. destruct (take_hex n s'); [| reflexivity].
  now destruct n.
Qed.

Lemma match_groups sizes : forall b s,
  re_match_here true (group_atoms sizes ++ [Eol]) b s = grouped_eol sizes s.
Proof.
  induction sizes as [| n rest IH]; intros b s.
  - cbn. apply andb_true_r.
  - destruct rest as [| m rest'].
    + cbn [group_atoms grouped_eol]. rewrite match_hex_run.
      destruct (take_hex n s); [| reflexivity].
      cbn. apply andb_true_r.
    + cbn [group_atoms grouped_eol]. rewrite <- app_assoc, match_hex_run.
      destruct (take_hex n s) as [s' |]; [| reflexivity].
      cbn [app re_match_here]. destruct s' as [| x s'']; [reflexivity |].
      now rewrite lit_hyphen, IH.
Qed.

Lemma MBID_PATTERN_atoms :
  re_atoms MBID_PATTERN = Bol :: group_atoms [8; 4; 4; 4; 12]%nat ++ [Eol].
Proof. vm_compute. reflexivity. Qed.

Lemma re_match_here_Bol ic p b s :
  re_match_here ic (Bol :: p) b s = b && re_match_here ic p b s.
Proof. reflexivity. Qed.

Lemma is_valid_mbid_grouped s :
  is_valid_mbid s = negb (String.eqb s "") && grouped_eol [8; 4; 4; 4; 12]%nat s.
Proof.
  unfold is_valid_mbid, re_match.
  rewrite MBID_PATTERN_atoms.
  change (re_ignorecase MBID_PATTERN) with true.
  rewrite re_match_here_Bol, match_groups.
  destruct (String.eqb s ""); reflexivity.
Qed.

Lemma take_hex_newline n : forall t,
  take_hex n (t ++ nl) =
  match take_hex n t with
  | Some r => Some (r ++ nl)
  | None => None
  end.
Proof.
  induction n as [| n IH]; intros t; [reflexivity |].
  destruct t as [| c t']; [reflexivity |].
  cbn. destruct (is_hex_digit c); [apply IH | reflexivity].
Qed.

Lemma take_hex_split n : forall s s',
  take_hex n s = Some s' ->
  exists h, s = h ++ s' /\ forall x, take_hex n (h ++ x) = Some x.
Proof.
  induction n as [| n IH]; intros s s' H.
  - injection H as <-. now exists "".
  - destruct s as [| c t]; [discriminate |]. cbn in H.
    destruct (is_hex_digit c) eqn:Hc; [| discriminate].
    destruct (IH _ _ H) as (h & -> & Hh).
    exists (String c h). split; [reflexivity |].
    intros x. cbn. now rewrite Hc.
Qed.

Lemma append_assoc (a b c : string) : (a ++ b) ++ c = a ++ b ++ c.
Proof. induction a; cbn; congruence. Qed.

Lemma at_eol_iff s : at_eol s = true <-> s = "" \/ s = nl.
Proof.
  destruct s as [| c [| c' s']]; cbn.
  - intuition.
  - split.
    + intros H. apply Ascii.eqb_eq in H. subst c. now right.
    + intros [H | H]; [discriminate |]. injection H as ->. reflexivity.
  - split; [discriminate |]. intros [H | H]; discriminate.
Qed.

(** [$] lets one trailing newline through, and nothing else. *)
Lemma grouped_eol_iff sizes : forall s,
  grouped_eol sizes s = true <->
  grouped sizes s = true \/ exists t, s = t ++ nl /\ grouped sizes t = true.
Proof.
  induction sizes as [| n rest IH]; intros s.
  - cbn [grouped_eol grouped]. rewrite at_eol_iff, String.eqb_eq.
    split.
    + intros [-> | ->]; [now left | right]. exists "". now split.
    + intros [-> | (t & -> & Ht)]; [now left | right].
      apply String.eqb_eq in Ht. now subst t.
  - cbn [grouped_eol grouped]. split.
    + destruct (take_hex n s) as [s' |] eqn:Hs; [| discriminate].
      destruct (take_hex_split _ _ _ Hs) as (h & -> & Hh).
      destruct rest as [| m rest'].
      * rewrite at_eol_iff, String.eqb_eq.
        intros [-> | ->]; [now left | right].
        exists (h ++ ""). split; [now rewrite append_assoc |].
        now rewrite Hh.
      * destruct s' as [| c s'']; [discriminate |].
        intros H. apply andb_true_iff in H. destruct H as [Hc H].
        rewrite Hc. cbn [andb].
        apply IH in H. destruct H as [H | (t & -> & Ht)]; [now left | right].
        exists (h ++ String c t). split.
        -- now rewrite append_assoc.
        -- rewrite Hh, Hc. exact Ht.
    + intros [H | (t & -> & H)].
      * destruct (take_hex n s) as [s' |]; [| discriminate].
        destruct rest as [| m rest'].
        -- apply at_eol_iff. left. now apply String.eqb_eq.
        -- destruct s' as [| c s'']; [discriminate |].
           apply andb_true_iff in H. destruct H as [Hc H].
           rewrite Hc. apply IH. now left.
      * rewrite take_hex_newline.
        destruct (take_hex n t) as [r |]; [| discriminate].
        destruct rest as [| m rest'].
        -- apply String.eqb_eq in H. subst r. reflexivity.
        -- destruct r as [| c r']; [discriminate |].
           apply andb_true_iff in H. destruct H as [Hc H].
           cbn [append]. rewrite Hc. apply IH. right. now exists r'.
Qed.

Lemma mbid_shape_nonempty s : mbid_shape s = true -> String.eqb s "" = false.
Proof. destruct s; [discriminate | reflexivity]. Qed.

(** [is_valid_mbid] accepts the strings of the identifier shape and, since
    [$] also matches before a final newline, those strings followed by one
    newline. *)
Lemma is_valid_mbid_iff s :
  is_valid_mbid s = true <->
  mbid_shape s = true \/ exists t, s = t ++ nl /\ mbid_shape t = true.
Proof.
  rewrite is_valid_mbid_grouped, andb_true_iff, grouped_eol_iff.
  fold (mbid_shape s). split.
  - intros [_ H]. exact H.
  - intros H. split; [| exact H].
    destruct H as [H | (t & -> & H)].
    + now rewrite (mbid_shape_nonempty _ H).
    + destruct t; reflexivity.
Qed.

Lemma mbid_shape_valid s : mbid_shape s = true -> is_valid_mbid s = true.
Proof. intros H. apply is_valid_mbid_iff. now left. Qed.

(** ** The resolver *)

Lemma make_request_returns env ep params w doc :
  next_document env w = Some doc ->
  fst (_make_request env ep params w) = Return doc.
Proof.
  unfold next_document. intros H.
  destruct (rate_limit_run env w) as (w1 & R & Hreq & _).
  unfold _make_request. rewrite (bind_Return _ _ _ _ _ R).
  unfold bind, dispatch. rewrite Hreq. cbn.
  destruct (urlopen env _) as [data | code reason | reason | text |];
    try discriminate; cbn.
  - destruct (json_loads env data); [| discriminate].
    now injection H as ->.
  - destruct (code =? 404); [| discriminate]. now injection H as ->.
Qed.

Section ResolverFacts.

Variable env : environment.

Lemma resolve_artist_run q w :
  is_valid_mbid q = false ->
  resolve_artist_mbid env q w =
  (and_then (fst (search_artist env q 1 w))
     (first_id "artists" ("Artist '" ++ q ++ "' not found")),
   snd (search_artist env q 1 w)).
Proof.
  intros V. unfold resolve_artist_mbid. rewrite V.
  unfold bind, lift, raise, first_id, and_then.
  destruct (search_artist env q 1 w) as [[results | e] w1]; cbn [fst snd];
    [| reflexivity].
  destruct (py_get results "artists" (PList [])) as [found | e];
    [| reflexivity].
  destruct (truthy found); cbn [negb]; [| reflexivity].
  destruct (py_first found); reflexivity.
Qed.

Lemma resolve_release_run q artist w :
  is_valid_mbid q = false ->
  resolve_release_mbid env q artist w =
  (and_then (fst (search_release env (release_search_text q artist) 1 w))
     (first_id "releases" (release_not_found q artist)),
   snd (search_release env (release_search_text q artist) 1 w)).
Proof.
  intros V. unfold resolve_release_mbid. rewrite V.
  unfold bind, lift, raise, first_id, and_then, release_search_text,
    release_not_found.
  destruct (supplied artist) as [a |];
    (match goal with |- context [search_release env ?t 1 w] =>
       destruct (search_release env t 1 w) as [[results | e] w1] end;
     cbn [fst snd]; [| reflexivity];
     destruct (py_get results "releases" (PList [])) as [found | e];
     [| reflexivity];
     destruct (truthy found); cbn [negb]; [| reflexivity];
     destruct (py_first found); reflexivity).
Qed.

End ResolverFacts.

(** C2.  A query of the identifier shape is returned as it is, by both
    resolvers, and the world is left as it was: no request goes out. *)
Theorem resolve_identifier_unchanged env q artist w :
  mbid_shape q = true ->
  resolve_artist_mbid env q w = (Return (PStr q), w) /\
  resolve_release_mbid env q artist w = (Return (PStr q), w).
Proof.
  intros H. apply mbid_shape_valid in H.
  unfold resolve_artist_mbid, resolve_release_mbid. rewrite H.
  split; reflexivity.
Qed.

Lemma resolve_identifier_unchanged_witness :
  resolve_artist_mbid quiet_env radiohead (boot 0) =
    (Return (PStr radiohead), boot 0) /\
  resolve_release_mbid quiet_env radiohead (Some "Radiohead") (boot 0) =
    (Return (PStr radiohead), boot 0).
Proof.
  apply (resolve_identifier_unchanged quiet_env radiohead (Some "Radiohead")
           (boot 0)).
  vm_compute. reflexivity.
Defined.

(** C3.  A query that is not of the identifier shape is to be resolved by
    exactly one search.  That is not so for an identifier followed by a
    newline: it is not of the identifier shape, yet [is_valid_mbid] accepts
    it ([$] also matches before a final newline), and both resolvers return
    it without a search. *)
Theorem newline_query_is_not_searched env artist w :
  let q := radiohead ++ nl in
  mbid_shape q = false /\
  is_valid_mbid q = true /\
  resolve_artist_mbid env q w = (Return (PStr q), w) /\
  resolve_release_mbid env q artist w = (Return (PStr q), w).
Proof.
  intros q.
  assert (V : is_valid_mbid q = true) by (vm_compute; reflexivity).
  unfold resolve_artist_mbid, resolve_release_mbid. rewrite V.
  repeat split.
Qed.

Lemma length_append (a b : string) :
  String.length (a ++ b) = (String.length a + String.length b)%nat.
Proof. induction a; cbn; congruence. Qed.

(** When [is_valid_mbid] rejects the query, a resolver issues one search,
    for one result, and nothing else. *)
Lemma resolve_artist_searches_once env q w :
  is_valid_mbid q = false ->
  exists r,
    requests (snd (resolve_artist_mbid env q w)) = (requests w ++ [r])%list /\
    req_endpoint r = Collection "artist" /\
    dict_get (req_params r) "query" = Some (PStr q) /\
    dict_get (req_params r) "limit" = Some (PInt 1).
Proof.
  intros V. rewrite (resolve_artist_run env q w V). cbn [snd].
  destruct (make_request_log env (Collection "artist")
              [("query", PStr q); ("limit", PInt 1)] w)
    as (r & L & E & Pm & _).
  exists r. rewrite Pm. repeat split; assumption.
Qed.

Lemma resolve_release_searches_once env q artist w :
  is_valid_mbid q = false ->
  exists r,
    requests (snd (resolve_release_mbid env q artist w)) =
      (requests w ++ [r])%list /\
    req_endpoint r = Collection "release" /\
    dict_get (req_params r) "query" = Some (PStr (release_search_text q artist)) /\
    dict_get (req_params r) "limit" = Some (PInt 1).
Proof.
  intros V. rewrite (resolve_release_run env q artist w V). cbn [snd].
  destruct (make_request_log env (Collection "release")
              [("query", PStr (release_search_text q artist)); ("limit", PInt 1)] w)
    as (r & L & E & Pm & _).
  exists r. rewrite Pm. repeat split; assumption.
Qed.

(** The search text for the queries [is_valid_mbid] rejects.  With an
    artist supplied (one that passes [if artist:]), the one search
    [resolve_release_mbid] issues asks for
    [release:"<query>" AND artist:"<artist>"]: both terms, each quoted and
    tied to its field, joined by [AND]; the text is not the two strings put
    one after the other. *)
Theorem release_search_is_conjunctive env q artist a w :
  is_valid_mbid q = false ->
  supplied artist = Some a ->
  let text := "release:" ++ dquote ++ q ++ dquote ++
              " AND artist:" ++ dquote ++ a ++ dquote in
  (exists r,
     requests (snd (resolve_release_mbid env q artist w)) =
       (requests w ++ [r])%list /\
     req_endpoint r = Collection "release" /\
     dict_get (req_params r) "query" = Some (PStr text)) /\
  contains ("release:" ++ dquote ++ q ++ dquote) text = true /\
  contains " AND " text = true /\
  contains ("artist:" ++ dquote ++ a ++ dquote) text = true /\
  text <> q ++ a /\ text <> q ++ " " ++ a.
Proof.
  intros V S text.
  assert (T : release_search_text q artist = text).
  { unfold release_search_text. now rewrite S. }
  repeat split.
  - destruct (resolve_release_searches_once env q artist w V)
      as (r & L & E & Hq & _).
    exists r. rewrite <- T. repeat split; assumption.
  - subst text.
    replace ("release:" ++ dquote ++ q ++ dquote ++
             " AND artist:" ++ dquote ++ a ++ dquote)
      with (("release:" ++ dquote ++ q ++ dquote) ++
            " AND artist:" ++ dquote ++ a ++ dquote)
      by (now rewrite !append_assoc).
    apply contains_here.
  - subst text.
    replace ("release:" ++ dquote ++ q ++ dquote ++
             " AND artist:" ++ dquote ++ a ++ dquote)
      with (("release:" ++ dquote ++ q ++ dquote) ++
            " AND " ++ "artist:" ++ dquote ++ a ++ dquote)
      by (now rewrite !append_assoc).
    apply contains_app.
  - subst text.
    replace ("release:" ++ dquote ++ q ++ dquote ++
             " AND artist:" ++ dquote ++ a ++ dquote)
      with (("release:" ++ dquote ++ q ++ dquote ++ " AND ") ++
            "artist:" ++ dquote ++ a ++ dquote)
      by (now rewrite !append_assoc).
    apply contains_end.
  - intros E. apply (f_equal String.length) in E. subst text.
    rewrite !length_append in E. cbn in E. lia.
  - intros E. apply (f_equal String.length) in E. subst text.
    rewrite !length_append in E. cbn in E. lia.
Qed.

Lemma release_search_is_conjunctive_witness :
  let text := "release:" ++ dquote ++ "OK Computer" ++ dquote ++
              " AND artist:" ++ dquote ++ "Radiohead" ++ dquote in
  (exists r,
     requests (snd (resolve_release_mbid quiet_env "OK Computer"
                      (Some "Radiohead") (boot 0))) =
       (requests (boot 0) ++ [r])%list /\
     req_endpoint r = Collection "release" /\
     dict_get (req_params r) "query" = Some (PStr text)) /\
  contains ("release:" ++ dquote ++ "OK Computer" ++ dquote) text = true /\
  contains " AND " text = true /\
  contains ("artist:" ++ dquote ++ "Radiohead" ++ dquote) text = true /\
  text <> "OK Computer" ++ "Radiohead" /\
  text <> "OK Computer" ++ " " ++ "Radiohead".
Proof.
  apply (release_search_is_conjunctive quiet_env "OK Computer"
           (Some "Radiohead") "Radiohead" (boot 0)).
  - vm_compute. reflexivity.
  - reflexivity.
Defined.

(** C5.  A release query that is not of the identifier shape, with an artist
    supplied, is to be searched for by the compound text of the title and
    the artist.  That is not so for an identifier followed by a newline: it
    is not of the identifier shape, yet [is_valid_mbid] accepts it, and
    [resolve_release_mbid] returns it as it is: no search text is built, no
    request is sent, and the artist is never looked at. *)
Theorem newline_release_query_builds_no_search env w :
  let q := radiohead ++ nl in
  let artist := Some "Radiohead" in
  mbid_shape q = false /\
  supplied artist = Some "Radiohead" /\
  resolve_release_mbid env q artist w = (Return (PStr q), w) /\
  requests (snd (resolve_release_mbid env q artist w)) = requests w /\
  ~ (exists r,
       requests (snd (resolve_release_mbid env q artist w)) =
         (requests w ++ [r])%list /\
       dict_get (req_params r) "query" =
         Some (PStr (release_search_text q artist))).
Proof.
  intros q artist.
  assert (V : is_valid_mbid q = true) by (vm_compute; reflexivity).
  assert (R : resolve_release_mbid env q artist w = (Return (PStr q), w)).
  { unfold resolve_release_mbid. now rewrite V. }
  rewrite R. cbn [snd].
  repeat split.
  intros (r & L & _). apply (f_equal (@List.length request)) in L.
  rewrite List.length_app in L. cbn in L. lia.
Qed.

(** ** Exit codes *)

Lemma func_unfold env c args :
  func env c args = try_except (command_body env c args) command_handler.
Proof. destruct c; reflexivity. Qed.

(** [main], by what the body of the command does. *)
Lemma main_run env args w :
  main env args w =
  let run := command_body env (arg_command args) args (started w) in
  match fst run with
  | Return u => (Return u, snd run)
  | Raise (ValueError msg) =>
      (Raise (SystemExit 1),
       with_stderr [Text (nl ++ "Error: " ++ msg)] (snd run))
  | Raise (APIError msg) =>
      (Raise (SystemExit 2),
       with_stderr [Text (nl ++ "API Error: " ++ msg)] (snd run))
  | Raise KeyboardInterrupt =>
      (Raise (SystemExit 130),
       with_stderr [Text (nl ++ nl ++ "Interrupted by user.")] (snd run))
  | Raise (Fault cls) =>
      (Raise (SystemExit 1),
       with_stderr [Text (nl ++ "Unexpected error: "); StrExn (Fault cls)]
         (snd run))
  | Raise (SystemExit code) => (Raise (SystemExit code), snd run)
  end.
Proof.
  unfold main, bind, set_last_request_time. cbn beta iota.
  rewrite func_unfold. unfold try_except, started, set_last_request_time.
  cbn [snd].
  destruct (command_body env (arg_command args) args _) as [[u | e] w1];
    [reflexivity |].
  destruct e; reflexivity.
Qed.

(** C6.  The exit status of the process is 0 when the command runs to its
    end, 1 when it raises [ValueError] (a failed resolution), 2 when it
    raises [APIError] (a failed request), 130 when the user interrupts it;
    in the two failure cases the message has been printed on the error
    stream, after everything the command had printed.  (Any other
    exception of the command also ends in status 1.) *)
Theorem exit_codes env args w :
  let run := command_body env (arg_command args) args (started w) in
  let code := exit_status (fst (main env args w)) in
  let final := snd (main env args w) in
  match fst run with
  | Return _ => code = Some 0 /\ final = snd run
  | Raise (ValueError msg) =>
      code = Some 1 /\
      stderr final = (stderr (snd run) ++ [[Text (nl ++ "Error: " ++ msg)]])%list
  | Raise (APIError msg) =>
      code = Some 2 /\
      stderr final =
        (stderr (snd run) ++ [[Text (nl ++ "API Error: " ++ msg)]])%list
  | Raise KeyboardInterrupt => code = Some 130
  | Raise (Fault _) => code = Some 1
  | Raise (SystemExit c) => code = Some c
  end.
Proof.
  cbv zeta. rewrite main_run. cbv zeta.
  destruct (fst (command_body env (arg_command args) args (started w)))
    as [u | e]; [split; reflexivity |].
  destruct e; cbn; try split; reflexivity.
Qed.

(** The four exit statuses, each on a run of [album-tracks "OK Computer"
    --artist "Radiohead"]. *)
Example album_tracks_succeeds :
  let run := main record_shop ok_computer (boot 1000) in
  exit_status (fst run) = Some 0 /\
  List.length (requests (snd run)) = 2%nat /\
  In [Text "  "; Fmt (PStr "1") ">2"; Text ". "; Str (PStr "Airbag");
      Text " (4:45)"] (stdout (snd run)) /\
  In [Text "  "; Fmt (PStr "2") ">2"; Text ". "; Str (PStr "Paranoid Android");
      Text " (?)"] (stdout (snd run)).
Proof. vm_compute. intuition. Qed.

Example album_tracks_not_found :
  exit_status (fst (main quiet_env ok_computer (boot 1000))) = Some 1.
Proof. vm_compute. reflexivity. Qed.

Example album_tracks_service_down :
  let run := main out_of_service ok_computer (boot 1000) in
  exit_status (fst run) = Some 2 /\
  stderr (snd run) =
  [[Text (nl ++ "API Error: MusicBrainz service unavailable (503). Try again later.")]].
Proof. vm_compute. split; reflexivity. Qed.

Example album_tracks_interrupted :
  exit_status (fst (main impatient_user ok_computer (boot 1000))) = Some 130.
Proof. vm_compute. reflexivity. Qed.

(** ** A search that comes back without results *)

Section NotFound.

Variable env : environment.


Lemma resolve_artist_not_found q w d :
  is_valid_mbid q = false ->
  next_document env w = Some (PDict d) ->
  dict_get d "artists" = None ->
  resolve_artist_mbid env q w =
  (Raise (ValueError ("Artist '" ++ q ++ "' not found")),
   snd (search_artist env q 1 w)).
Proof.
  intros V D A. rewrite (resolve_artist_run env q w V).
  unfold search_artist at 1.
  rewrite (make_request_returns env _ _ w _ D).
  unfold and_then, first_id, py_get. now rewrite A.
Qed.

Lemma resolve_release_not_found q artist w d :
  is_valid_mbid q = false ->
  next_document env w = Some (PDict d) ->
  dict_get d "releases" = None ->
  resolve_release_mbid env q artist w =
  (Raise (ValueError (release_not_found q artist)),
   snd (search_release env (release_search_text q artist) 1 w)).
Proof.
  intros V D A. rewrite (resolve_release_run env q artist w V).
  unfold search_release at 1.
  rewrite (make_request_returns env _ _ w _ D).
  unfold and_then, first_id, py_get. now rewrite A.
Qed.

(** A command whose resolver fails stops there. *)
Lemma command_body_not_found args w d :
  is_valid_mbid (arg_query args) = false ->
  next_document env w = Some (PDict d) ->
  dict_get d (result_key (arg_command args)) = None ->
  exists w2,
    command_body env (arg_command args) args w =
      (Raise (ValueError (not_found_message args)), w2) /\
    stderr w2 = stderr w.
Proof.
  intros V D K.
  set (w1 := snd (print [Text ("Searching for '" ++ arg_query args ++ "'...")] w)).
  assert (D1 : next_document env w1 = Some (PDict d)) by exact D.
  unfold not_found_message.
  destruct (arg_command args); cbn [command_body result_key] in *;
    unfold artist_info_body, artist_releases_body, album_info_body,
      album_tracks_body;
    unfold bind at 1; cbn [print]; fold w1;
    first
      [ rewrite (bind_Raise _ _ _ _ _ (resolve_artist_not_found _ w1 d V D1 K));
        unfold search_artist
      | rewrite (bind_Raise _ _ _ _ _
                   (resolve_release_not_found _ (supplied (arg_artist args))
                      w1 d V D1 K));
        unfold search_release ];
    (eexists; split; [reflexivity |]);
    match goal with |- stderr (snd (_make_request env ?ep ?ps w1)) = _ =>
      destruct (make_request_log env ep ps w1)
        as (r & _ & _ & _ & _ & _ & [_ He] & _)
    end;
    rewrite He; reflexivity.
Qed.

End NotFound.

Lemma artist_message_names_query q :
  contains q ("Artist '" ++ q ++ "' not found") = true /\
  contains "not found" ("Artist '" ++ q ++ "' not found") = true.
Proof.
  split; [apply contains_app |].
  replace ("Artist '" ++ q ++ "' not found")
    with (("Artist '" ++ q ++ "' ") ++ "not found")
    by (now rewrite !append_assoc).
  apply contains_end.
Qed.

Lemma release_message_names_query q artist :
  contains q (release_not_found q artist) = true /\
  contains "not found" (release_not_found q artist) = true /\
  match supplied artist with
  | Some a => contains a (release_not_found q artist) = true
  | None => True
  end.
Proof.
  unfold release_not_found. destruct (supplied artist) as [a |].
  - split; [apply contains_app |]. split.
    + replace ("Release '" ++ q ++ "' by '" ++ a ++ "' not found")
        with (("Release '" ++ q ++ "' by '" ++ a ++ "' ") ++ "not found")
        by (now rewrite !append_assoc).
      apply contains_end.
    + replace ("Release '" ++ q ++ "' by '" ++ a ++ "' not found")
        with (("Release '" ++ q ++ "' by '") ++ a ++ "' not found")
        by (now rewrite !append_assoc).
      apply contains_app.
  - split; [apply contains_app |]. split; [| exact I].
    replace ("Release '" ++ q ++ "' not found")
      with (("Release '" ++ q ++ "' ") ++ "not found")
      by (now rewrite !append_assoc).
    apply contains_end.
Qed.

Lemma comes_back_without_document env w key :
  dict_get [("error", PStr "not_found"); ("message", PStr "Entity not found")]
    key = None ->
  comes_back_without env w key ->
  exists d, next_document env w = Some (PDict d) /\ dict_get d key = None.
Proof.
  unfold next_document.
  intros N [(reason & H) | (data & d & H & J & K)]; rewrite H.
  - eexists; split; [reflexivity | exact N].
  - rewrite J. now exists d.
Qed.

(** C9.  For a query that is no identifier ([is_valid_mbid] rejects it, the
    one case in which a search is issued: [search_issued_iff] below), when
    the search comes back with the not-found document of a 404, or with any
    document without the list of results, the resolver raises the not-found
    [ValueError]; the command then ends with exit status 1 and the message
    on the error stream: the failure is a resolution failure, not a service
    failure, and the document does not reach the command. *)
Theorem search_without_results_is_not_found env w :
  (forall q,
     is_valid_mbid q = false ->
     comes_back_without env w "artists" ->
     fst (resolve_artist_mbid env q w) =
     Raise (ValueError ("Artist '" ++ q ++ "' not found"))) /\
  (forall q artist,
     is_valid_mbid q = false ->
     comes_back_without env w "releases" ->
     fst (resolve_release_mbid env q artist w) =
     Raise (ValueError (release_not_found q artist))) /\
  (forall args,
     is_valid_mbid (arg_query args) = false ->
     comes_back_without env w (result_key (arg_command args)) ->
     exit_status (fst (main env args w)) = Some 1 /\
     stderr (snd (main env args w)) =
     (stderr w ++ [[Text (nl ++ "Error: " ++ not_found_message args)]])%list).
Proof.
  split; [| split].
  - intros q V C.
    destruct (comes_back_without_document env w "artists" eq_refl C)
      as (d & D & K).
    now rewrite (resolve_artist_not_found env q w d V D K).
  - intros q artist V C.
    destruct (comes_back_without_document env w "releases" eq_refl C)
      as (d & D & K).
    now rewrite (resolve_release_not_found env q artist w d V D K).
  - intros args V C.
    assert (N : dict_get
                  [("error", PStr "not_found"); ("message", PStr "Entity not found")]
                  (result_key (arg_command args)) = None)
      by (destruct (arg_command args); reflexivity).
    destruct (comes_back_without_document env (started w) _ N C)
      as (d & D & K).
    destruct (command_body_not_found env args (started w) d V D K)
      as (w2 & B & E).
    rewrite main_run. cbv zeta. rewrite B. cbn [fst snd exit_status].
    split; [reflexivity |].
    unfold with_stderr. cbn. now rewrite E.
Qed.

Lemma search_without_results_is_not_found_witness :
  fst (resolve_artist_mbid quiet_env "Radiohead" (boot 0)) =
    Raise (ValueError ("Artist '" ++ "Radiohead" ++ "' not found")) /\
  fst (resolve_release_mbid quiet_env "OK Computer" (Some "Radiohead") (boot 0)) =
    Raise (ValueError (release_not_found "OK Computer" (Some "Radiohead"))) /\
  exit_status (fst (main quiet_env ok_computer (boot 0))) = Some 1 /\
  stderr (snd (main quiet_env ok_computer (boot 0))) =
  (stderr (boot 0) ++
   [[Text (nl ++ "Error: " ++ not_found_message ok_computer)]])%list.
Proof.
  destruct (search_without_results_is_not_found quiet_env (boot 0))
    as (Ha & Hr & Hm).
  split; [| split].
  - apply (Ha "Radiohead").
    + vm_compute. reflexivity.
    + left. exists "Not Found". reflexivity.
  - apply (Hr "OK Computer" (Some "Radiohead")).
    + vm_compute. reflexivity.
    + left. exists "Not Found". reflexivity.
  - apply (Hm ok_computer).
    + vm_compute. reflexivity.
    + left. exists "Not Found". reflexivity.
Defined.

(** ** Every run of [main] keeps its requests apart *)

Lemma spaced_snoc rs r' :
  spaced rs ->
  (forall r, List.last (map Some rs) None = Some r ->
             (req_time r + RATE_LIMIT <= req_time r')%Q) ->
  spaced (rs ++ [r']).
Proof.
  induction rs as [| r rest IH]; intros S L; [exact I |].
  destruct rest as [| r2 rest'].
  - cbn. split; [| exact I]. apply L. reflexivity.
  - cbn [app spaced] in *. destruct S as [S1 S2]. split; [exact S1 |].
    apply IH; [exact S2 |]. intros r0 H. apply L. exact H.
Qed.

Lemma last_snoc rs (r' : request) :
  List.last (map Some (rs ++ [r'])) None = Some r'.
Proof.
  rewrite map_app. cbn [map]. apply last_last.
Qed.

Section Keeps.

Variable env : environment.
Hypothesis pauses : pauses_nonneg env.

Lemma keeps_same {A} (m : M A) :
  (forall w, same_client w (snd (m w))) -> keeps m.
Proof.
  intros H w [S L]. destruct (H w) as [Hl Hr].
  unfold client_ok. now rewrite Hl, Hr.
Qed.

Lemma keeps_ret {A} (a : A) : keeps (ret a).
Proof. apply keeps_same. intros w. split; reflexivity. Qed.

Lemma keeps_raise {A} (e : exn) : keeps (@raise A e).
Proof. apply keeps_same. intros w. split; reflexivity. Qed.

Lemma keeps_lift {A} (r : result A) : keeps (lift r).
Proof. apply keeps_same. intros w. split; reflexivity. Qed.

Lemma keeps_print l : keeps (print l).
Proof. apply keeps_same. intros w. split; reflexivity. Qed.

Lemma keeps_print_err l : keeps (print_err l).
Proof. apply keeps_same. intros w. split; reflexivity. Qed.

Lemma keeps_bind {A B} (m : M A) (k : A -> M B) :
  keeps m -> (forall a, keeps (k a)) -> keeps (bind m k).
Proof.
  intros Hm Hk w C. unfold bind. specialize (Hm w C).
  destruct (m w) as [[a | e] w1]; cbn [snd] in *; [now apply Hk | exact Hm].
Qed.

Lemma keeps_try {A} (body : M A) handler :
  keeps body ->
  (forall e h, handler e = Some h -> keeps h) ->
  keeps (try_except body handler).
Proof.
  intros Hb Hh w C. unfold try_except. specialize (Hb w C).
  destruct (body w) as [[a | e] w1]; cbn [snd] in *; [exact Hb |].
  destruct (handler e) as [h |] eqn:E; [| exact Hb].
  now apply (Hh e h E).
Qed.

Lemma keeps_for_each {A} (xs : list A) (body : A -> M unit) :
  (forall x, keeps (body x)) -> keeps (for_each xs body).
Proof.
  intros H. induction xs as [| x xs IH]; cbn [for_each].
  - apply keeps_ret.
  - apply keeps_bind; [apply H | intros _; exact IH].
Qed.

Lemma keeps_make_request ep params : keeps (_make_request env ep params).
Proof.
  intros w [S L].
  destruct (make_request_log env ep params w)
    as (r & Hl & _ & _ & _ & Ht & _ & _ & Hg).
  specialize (Hg pauses). unfold client_ok. rewrite Hl. split.
  - apply spaced_snoc; [exact S |].
    intros r0 H0. specialize (L r0 H0). lra.
  - intros r0 H0. rewrite last_snoc in H0. injection H0 as <-.
    rewrite Ht. lra.
Qed.

Ltac keeps_step :=
  lazymatch goal with
  | |- keeps (bind _ _) => apply keeps_bind; [| intros ?]
  | |- keeps (_make_request _ _ _) => apply keeps_make_request
  | |- keeps (ret _) => apply keeps_ret
  | |- keeps (raise _) => apply keeps_raise
  | |- keeps (lift _) => apply keeps_lift
  | |- keeps (print _) => apply keeps_print
  | |- keeps (print_err _) => apply keeps_print_err
  | |- keeps (for_each _ _) => apply keeps_for_each; intros ?
  | |- keeps (if ?b then _ else _) => destruct b
  | |- keeps (match ?x with _ => _ end) => destruct x
  end.

Lemma keeps_resolve_artist q : keeps (resolve_artist_mbid env q).
Proof.
  unfold resolve_artist_mbid, search_artist. repeat keeps_step.
Qed.

Lemma keeps_resolve_release q artist : keeps (resolve_release_mbid env q artist).
Proof.
  unfold resolve_release_mbid, search_release. repeat keeps_step.
Qed.

Lemma keeps_handlers :
  (forall e h, command_handler e = Some h -> keeps h) /\
  (forall e h, main_handler e = Some h -> keeps h).
Proof.
  split; intros e h H; destruct e; cbn in H; try discriminate;
    injection H as <-; unfold sys_exit; repeat keeps_step.
Qed.

Lemma keeps_release_entry ir : keeps (release_entry ir).
Proof. destruct ir. unfold release_entry. repeat keeps_step. Qed.

Lemma keeps_track_entry track : keeps (track_entry track).
Proof. unfold track_entry. repeat keeps_step. Qed.

Lemma keeps_medium_entry medium : keeps (medium_entry medium).
Proof.
  unfold medium_entry.
  repeat
    lazymatch goal with
    | |- keeps (track_entry _) => apply keeps_track_entry
    | |- _ => keeps_step
    end.
Qed.

Lemma keeps_command_body c args : keeps (command_body env c args).
Proof.
  destruct c; cbn [command_body];
    unfold artist_info_body, artist_releases_body, album_info_body,
      album_tracks_body, lookup_artist, lookup_release,
      browse_releases_by_artist;
    repeat
      lazymatch goal with
      | |- keeps (resolve_artist_mbid _ _) => apply keeps_resolve_artist
      | |- keeps (resolve_release_mbid _ _ _) => apply keeps_resolve_release
      | |- keeps (release_entry _) => apply keeps_release_entry
      | |- keeps (medium_entry _) => apply keeps_medium_entry
      | |- _ => keeps_step
      end.
Qed.

(** X18.  In a run of [main] that starts with an empty log, whatever the
    command, its arguments and the answers of the service, every request is
    stamped at least [RATE_LIMIT] after the one before it, provided no clock
    reading and no sleep takes negative time. *)
Theorem main_requests_spaced args w :
  requests w = [] -> spaced (requests (snd (main env args w))).
Proof.
  intros E.
  assert (C : client_ok (started w)).
  { unfold client_ok, started. cbn. rewrite E. split; [exact I |].
    cbn. discriminate. }
  assert (K : keeps (try_except (func env (arg_command args) args) main_handler)).
  { apply keeps_try; [| apply keeps_handlers].
    rewrite func_unfold.
    apply keeps_try; [apply keeps_command_body | apply keeps_handlers]. }
  exact (proj1 (K _ C)).
Qed.

End Keeps.

Lemma main_requests_spaced_witness :
  spaced (requests (snd (main record_shop ok_computer (boot 1000)))).
Proof.
  apply (main_requests_spaced record_shop).
  - intros k. cbn. lra.
  - reflexivity.
Defined.

(** ** What the resolvers do once [is_valid_mbid] has rejected the query *)

Lemma first_id_list key msg d l :
  dict_get d key = Some (PList l) ->
  first_id key msg (PDict d) =
  match l with
  | [] => Raise (ValueError msg)
  | x :: _ => py_item x "id"
  end.
Proof.
  intros H. unfold first_id, py_get. rewrite H. now destruct l.
Qed.

Lemma py_item_no_ValueError v k msg : py_item v k <> Raise (ValueError msg).
Proof.
  destruct v; cbn; try discriminate. destruct (dict_get d k); discriminate.
Qed.

(** A search is issued exactly when [is_valid_mbid] rejects the query. *)
Lemma search_issued_iff env q w :
  requests (snd (resolve_artist_mbid env q w)) <> requests w <->
  is_valid_mbid q = false.
Proof.
  split.
  - intros H. destruct (is_valid_mbid q) eqn:V; [| reflexivity].
    exfalso. apply H. unfold resolve_artist_mbid. now rewrite V.
  - intros V E.
    destruct (resolve_artist_searches_once env q w V) as (r & L & _).
    rewrite L in E. apply (f_equal (@List.length _)) in E.
    rewrite List.length_app in E. cbn in E. lia.
Qed.

(** The first result's identifier, or the not-found error when there is no
    result; the error names the query. *)
Lemma resolve_artist_with_results env q w d l :
  is_valid_mbid q = false ->
  next_document env w = Some (PDict d) ->
  dict_get d "artists" = Some (PList l) ->
  let r := fst (resolve_artist_mbid env q w) in
  (forall first rest v,
     l = PDict first :: rest -> dict_get first "id" = Some v -> r = Return v) /\
  ((exists msg, r = Raise (ValueError msg)) <-> l = []) /\
  (l = [] -> r = Raise (ValueError ("Artist '" ++ q ++ "' not found"))).
Proof.
  intros V D A r. subst r.
  rewrite (resolve_artist_run env q w V). cbn [fst].
  unfold search_artist. rewrite (make_request_returns env _ _ w _ D).
  cbn [and_then]. rewrite (first_id_list _ _ _ _ A).
  split; [| split].
  - intros first rest v -> Hv. cbn. now rewrite Hv.
  - split.
    + intros (msg & H). destruct l as [| x l']; [reflexivity |].
      now apply py_item_no_ValueError in H.
    + intros ->. eexists. reflexivity.
  - intros ->. reflexivity.
Qed.

Lemma resolve_release_with_results env q artist w d l :
  is_valid_mbid q = false ->
  next_document env w = Some (PDict d) ->
  dict_get d "releases" = Some (PList l) ->
  let r := fst (resolve_release_mbid env q artist w) in
  (forall first rest v,
     l = PDict first :: rest -> dict_get first "id" = Some v -> r = Return v) /\
  ((exists msg, r = Raise (ValueError msg)) <-> l = []) /\
  (l = [] -> r = Raise (ValueError (release_not_found q artist))).
Proof.
  intros V D A r. subst r.
  rewrite (resolve_release_run env q artist w V). cbn [fst].
  unfold search_release. rewrite (make_request_returns env _ _ w _ D).
  cbn [and_then]. rewrite (first_id_list _ _ _ _ A).
  split; [| split].
  - intros first rest v -> Hv. cbn. now rewrite Hv.
  - split.
    + intros (msg & H). destruct l as [| x l']; [reflexivity |].
      now apply py_item_no_ValueError in H.
    + intros ->. eexists. reflexivity.
  - intros ->. reflexivity.
Qed.

(** * Further properties *)

(** ** What [is_valid_mbid] accepts *)

Lemma take_hex_length n : forall s s',
  take_hex n s = Some s' -> String.length s = (n + String.length s')%nat.
Proof.
  induction n as [| n IH]; intros s s' H.
  - now injection H as <-.
  - destruct s as [| c t]; [discriminate |]. cbn in H.
    destruct (is_hex_digit c); [| discriminate].
    cbn. now rewrite (IH _ _ H).
Qed.

Lemma mbid_shape_length t : mbid_shape t = true -> String.length t = 36%nat.
Proof.
  unfold mbid_shape. cbn [grouped].
  repeat
    (match goal with
     | |- match take_hex ?n ?s with _ => _ end = true -> _ =>
         let E := fresh "E" in
         destruct (take_hex n s) as [? |] eqn:E; [| discriminate];
         apply take_hex_length in E
     | |- match ?s with EmptyString => false | String _ _ => _ end = true -> _ =>
         destruct s as [| ? ?]; [discriminate |];
         let H := fresh "H" in
         intros H; apply andb_true_iff in H; destruct H as [_ H]; revert H
     end).
  intros H. apply String.eqb_eq in H. subst. cbn [String.length] in *. lia.
Qed.

(** X1.  [is_valid_mbid] accepts the strings of the identifier shape (36
    characters: 8-4-4-4-12 hexadecimal digits in either case, hyphens in
    between), the same strings followed by one newline, and no other
    string; so an accepted string has 36 or 37 characters. *)
Theorem is_valid_mbid_accepts s :
  (is_valid_mbid s = true <->
   exists t, mbid_shape t = true /\ (s = t \/ s = t ++ nl)) /\
  (is_valid_mbid s = true ->
   String.length s = 36%nat \/ String.length s = 37%nat).
Proof.
  assert (I : is_valid_mbid s = true <->
              exists t, mbid_shape t = true /\ (s = t \/ s = t ++ nl)).
  { rewrite is_valid_mbid_iff. split.
    - intros [H | (t & -> & H)].
      + exists s. split; [exact H | now left].
      + exists t. split; [exact H | now right].
    - intros (t & H & [-> | ->]); [now left | right]. now exists t. }
  split; [exact I |].
  intros V. apply I in V. destruct V as (t & H & [-> | ->]).
  - left. now apply mbid_shape_length.
  - right. rewrite length_append, (mbid_shape_length _ H). reflexivity.
Qed.

Lemma is_valid_mbid_accepts_witness :
  String.length (radiohead ++ nl) = 36%nat \/
  String.length (radiohead ++ nl) = 37%nat.
Proof.
  apply (proj2 (is_valid_mbid_accepts (radiohead ++ nl))).
  vm_compute. reflexivity.
Defined.

(** ** Letter case *)

Lemma hex_digit_case c :
  is_hex_digit (to_upper c) = is_hex_digit c /\
  is_hex_digit (to_lower c) = is_hex_digit c /\
  Ascii.eqb (to_upper c) "-" = Ascii.eqb c "-" /\
  Ascii.eqb (to_lower c) "-" = Ascii.eqb c "-" /\
  Ascii.eqb (to_upper c) newline = Ascii.eqb c newline /\
  Ascii.eqb (to_lower c) newline = Ascii.eqb c newline.
Proof.
  destruct c as [[] [] [] [] [] [] [] []]; vm_compute; repeat split.
Qed.

Section Case.

Variable f : ascii -> ascii.
Hypothesis f_hex : forall c, is_hex_digit (f c) = is_hex_digit c.
Hypothesis f_hyphen : forall c, Ascii.eqb (f c) "-" = Ascii.eqb c "-".
Hypothesis f_newline : forall c, Ascii.eqb (f c) newline = Ascii.eqb c newline.

Lemma take_hex_map n : forall s,
  take_hex n (string_map f s) = option_map (string_map f) (take_hex n s).
Proof.
  induction n as [| n IH]; intros s; [reflexivity |].
  destruct s as [| c t]; [reflexivity |].
  cbn. rewrite f_hex. destruct (is_hex_digit c); [apply IH | reflexivity].
Qed.

Lemma at_eol_map s : at_eol (string_map f s) = at_eol s.
Proof.
  destruct s as [| c [| c' t]]; cbn; [reflexivity | apply f_newline | reflexivity].
Qed.

Lemma grouped_eol_map sizes : forall s,
  grouped_eol sizes (string_map f s) = grouped_eol sizes s.
Proof.
  induction sizes as [| n rest IH]; intros s; cbn [grouped_eol].
  - apply at_eol_map.
  - rewrite take_hex_map. destruct (take_hex n s) as [s' |]; [| reflexivity].
    cbn [option_map]. destruct rest as [| m rest'].
    + apply at_eol_map.
    + destruct s' as [| c t]; [reflexivity |]. cbn [string_map].
      now rewrite f_hyphen, IH.
Qed.

Lemma is_valid_mbid_map s : is_valid_mbid (string_map f s) = is_valid_mbid s.
Proof.
  rewrite !is_valid_mbid_grouped, grouped_eol_map.
  now destruct s.
Qed.

End Case.

(** X2.  [is_valid_mbid] does not look at the case of the letters [A]..[Z]:
    two strings that differ at most in the case of such letters, at any
    positions, are accepted or rejected together. *)
Theorem is_valid_mbid_ignores_ascii_case s t :
  same_up_to_ascii_case s t -> is_valid_mbid s = is_valid_mbid t.
Proof.
  unfold same_up_to_ascii_case, fold_ascii_case. intros H.
  assert (L : forall u, is_valid_mbid (string_map to_lower u) = is_valid_mbid u).
  { intros u. apply is_valid_mbid_map; intros c; apply hex_digit_case. }
  rewrite <- (L s), <- (L t), H. reflexivity.
Qed.

Lemma is_valid_mbid_ignores_ascii_case_witness :
  is_valid_mbid "A74b1B7f-71A5-4011-9441-D0b5E4122711" = is_valid_mbid radiohead /\
  is_valid_mbid "OK Computer" = is_valid_mbid "ok computer".
Proof.
  split.
  - apply (is_valid_mbid_ignores_ascii_case
             "A74b1B7f-71A5-4011-9441-D0b5E4122711" radiohead).
    vm_compute. reflexivity.
  - apply (is_valid_mbid_ignores_ascii_case "OK Computer" "ok computer").
    vm_compute. reflexivity.
Defined.

(** ** The request that goes out *)

Lemma dict_get_set_same d k v : dict_get (dict_set d k v) k = Some v.
Proof.
  induction d as [| [k0 v0] d IH]; cbn.
  - now rewrite String.eqb_refl.
  - destruct (String.eqb k k0) eqn:E; cbn; now rewrite E.
Qed.

Lemma dict_set_keys d k v :
  keys (dict_set d k v) =
  if existsb (String.eqb k) (keys d) then keys d else (keys d ++ [k])%list.
Proof.
  induction d as [| [k0 v0] d IH]; cbn; [reflexivity |].
  destruct (String.eqb k k0) eqn:E; cbn; [reflexivity |].
  unfold keys in IH. rewrite IH.
  now destruct (existsb (String.eqb k) (map fst d)).
Qed.

Lemma make_request_sends env ep params w :
  requests (snd (_make_request env ep params w)) =
  (requests w ++
   [sent ep params (last_request_time (snd (_make_request env ep params w)))])%list.
Proof.
  destruct (rate_limit_run env w) as (w1 & R & Hreq & _).
  unfold _make_request. rewrite (bind_Return _ _ _ _ _ R).
  unfold bind, dispatch, sent; cbn.
  destruct (urlopen env _) as [data | code reason | reason | text |]; cbn;
    [ destruct (json_loads env data)
    | destruct (code =? 404); [| destruct (code =? 503); [| destruct (code =? 400)]]
    | | | ]; cbn; rewrite Hreq; reflexivity.
Qed.

(** X3.  A call of [_make_request] hands at most one request to [urlopen].
    Whatever the caller's parameters say and whatever becomes of the
    exchange, a request that goes out is for the caller's endpoint, asks for
    [fmt=json] (a ['fmt'] of the caller is overwritten, in its place),
    carries every other parameter of the caller unchanged, in the caller's
    order, and has the two fixed headers and the fixed timeout; and the
    client's timestamp is then the request's, also when the request
    fails. *)
Theorem make_request_sends_json env ep params w :
  let w' := snd (_make_request env ep params w) in
  exists new,
    requests w' = (requests w ++ new)%list /\
    (List.length new <= 1)%nat /\
    Forall (fun r =>
      req_endpoint r = ep /\
      dict_get (req_params r) "fmt" = Some (PStr "json") /\
      (forall k, String.eqb k "fmt" = false ->
                 dict_get (req_params r) k = dict_get params k) /\
      keys (req_params r) =
        (if existsb (String.eqb "fmt") (keys params) then keys params
         else (keys params ++ ["fmt"])%list) /\
      req_headers r =
        [("User-Agent", USER_AGENT); ("Accept", "application/json")] /\
      req_timeout r = 30 /\
      last_request_time w' = req_time r) new.
Proof.
  intros w'. subst w'. eexists. split; [apply make_request_sends |].
  split; [cbn; lia |].
  constructor; [| constructor].
  cbn [sent req_endpoint req_params req_headers req_timeout req_time].
  repeat split.
  - apply dict_get_set_same.
  - intros k N. now apply dict_get_set_other.
  - apply dict_set_keys.
Qed.

(** A request that goes out: the caller's [fmt] is overwritten, the query
    is kept. *)
Example make_request_overrides_fmt :
  map (fun r => (req_endpoint r, req_params r))
    (requests (snd (_make_request quiet_env (Collection "artist")
                      [("fmt", PStr "xml"); ("query", PStr "Radiohead")]
                      (boot 1000)))) =
  [(Collection "artist", [("fmt", PStr "json"); ("query", PStr "Radiohead")])].
Proof. reflexivity. Qed.

(** X4.  Each of the four lookups sends one request, for the entity
    [<kind>/<mbid>], whose parameters are [inc] (only when it is given and
    not empty) and [fmt=json], and nothing else: no limit, no query. *)
Theorem lookups_send_inc env mbid inc w :
  let params :=
    match supplied inc with
    | Some s => [("inc", PStr s); ("fmt", PStr "json")]
    | None => [("fmt", PStr "json")]
    end in
  let sends (call : M pyval) (kind : string) :=
    exists r,
      requests (snd (call w)) = (requests w ++ [r])%list /\
      req_endpoint r = Entity kind mbid /\ req_params r = params in
  sends (lookup_artist env mbid inc) "artist" /\
  sends (lookup_release env mbid inc) "release" /\
  sends (lookup_recording env mbid inc) "recording" /\
  sends (lookup_label env mbid inc) "label".
Proof.
  cbv zeta.
  unfold lookup_artist, lookup_release, lookup_recording, lookup_label,
    set_if_given.
  repeat split; eexists; (split; [apply make_request_sends |]);
    destruct (supplied inc); split; reflexivity.
Qed.

(** ** How long the rate limiter waits *)

(** X5.  The rate limiter waits for the remainder of the interval and no
    longer.  With [now] the first clock reading of [_rate_limit]: when less
    than [RATE_LIMIT] has passed since the stored timestamp (also when the
    clock was set back behind it), the new timestamp is the stored one plus
    [RATE_LIMIT], plus whatever the sleep and the second clock reading take
    on their own; otherwise nothing is slept and the new timestamp is [now]
    plus what the second clock reading takes.  With pauses of zero the
    timestamp is the later of [now] and the stored timestamp plus
    [RATE_LIMIT]. *)
Theorem rate_limit_waits_exactly env ep params w :
  let now := (clock w + pause env (ticks w))%Q in
  let last := last_request_time w in
  let t := last_request_time (snd (_make_request env ep params w)) in
  ((now - last < RATE_LIMIT)%Q ->
   (t == last + RATE_LIMIT + pause env (S (ticks w)) + pause env (S (S (ticks w))))%Q) /\
  ((RATE_LIMIT <= now - last)%Q ->
   (t == now + pause env (S (ticks w)))%Q).
Proof.
  cbv zeta.
  assert (E : last_request_time (snd (_make_request env ep params w)) =
              last_request_time (snd (_rate_limit env w))).
  { destruct (rate_limit_run env w) as (w1 & R & _).
    unfold _make_request. rewrite (bind_Return _ _ _ _ _ R), R.
    unfold bind, dispatch; cbn.
    destruct (urlopen env _) as [data | code reason | reason | text |]; cbn;
      [ destruct (json_loads env data)
      | destruct (code =? 404); [| destruct (code =? 503); [| destruct (code =? 400)]]
      | | | ]; reflexivity. }
  rewrite E. clear E.
  unfold _rate_limit, bind, time_time, get_last_request_time,
    set_last_request_time, time_sleep, ret, elapse; cbn.
  destruct (Qltb _ RATE_LIMIT) eqn:B; cbn.
  - apply Qltb_true in B. unfold RATE_LIMIT in *. split; intros H; lra.
  - apply Qltb_false in B. unfold RATE_LIMIT in *. split; intros H; lra.
Qed.

Lemma rate_limit_waits_exactly_witness :
  let w1 := snd (_make_request quiet_env (Collection "artist") [] (boot 1000)) in
  (last_request_time w1 == (1000 + (1 # 4)) + (1 # 4))%Q /\
  (last_request_time
     (snd (_make_request quiet_env (Collection "release") [] w1)) ==
   last_request_time w1 + RATE_LIMIT + (1 # 4) + (1 # 4))%Q.
Proof.
  split.
  - apply (proj2 (rate_limit_waits_exactly quiet_env (Collection "artist") []
                    (boot 1000))).
    vm_compute. discriminate.
  - apply (proj1 (rate_limit_waits_exactly quiet_env (Collection "release") []
                    (snd (_make_request quiet_env (Collection "artist") []
                            (boot 1000))))).
    vm_compute. reflexivity.
Defined.

(** ** Requests and output of a run *)

Section Effects.

Variable env : environment.

Lemma effect_same {A} (m : M A) :
  (forall w, requests (snd (m w)) = requests w /\
             stdout (snd (m w)) = stdout w /\
             stderr (snd (m w)) = stderr w) ->
  effect 0 m.
Proof.
  intros H w. destruct (H w) as (Hr & Ho & He). repeat split.
  - exists []. rewrite Hr, app_nil_r. repeat split; [apply Nat.le_refl | constructor].
  - exists []. now rewrite Ho, app_nil_r.
  - exact He.
Qed.

Lemma effect_ret {A} (a : A) : effect 0 (ret a).
Proof. apply effect_same. intros w. repeat split. Qed.

Lemma effect_raise {A} (e : exn) : effect 0 (@raise A e).
Proof. apply effect_same. intros w. repeat split. Qed.

Lemma effect_lift {A} (r : result A) : effect 0 (lift r).
Proof. apply effect_same. intros w. repeat split. Qed.

Lemma effect_print l : effect 0 (print l).
Proof.
  intros w. repeat split.
  - exists []. cbn. rewrite app_nil_r. repeat split; [apply Nat.le_refl | constructor].
  - now exists [l].
Qed.

Lemma effect_weaken {A} (m : M A) n n' :
  effect n m -> (n <= n')%nat -> effect n' m.
Proof.
  intros H L w. destruct (H w) as ((new & Hr & Hl & Hf) & Ho & He).
  repeat split; [| exact Ho | exact He].
  exists new. repeat split; [exact Hr | lia | exact Hf].
Qed.

Lemma effect_bind {A B} a b (m : M A) (k : A -> M B) :
  effect a m -> (forall x, effect b (k x)) -> effect (a + b) (bind m k).
Proof.
  intros Hm Hk w. unfold bind.
  destruct (Hm w) as ((new & Hr & Hl & Hf) & (out & Ho) & He).
  destruct (m w) as [[x | e] w1]; cbn [snd] in *.
  - destruct (Hk x w1) as ((new' & Hr' & Hl' & Hf') & (out' & Ho') & He').
    repeat split.
    + exists (new ++ new')%list. rewrite Hr', Hr, <- app_assoc.
      repeat split; [rewrite List.length_app; lia | now apply Forall_app].
    + exists (out ++ out')%list. now rewrite Ho', Ho, <- app_assoc.
    + now rewrite He', He.
  - repeat split.
    + exists new. repeat split; [exact Hr | lia | exact Hf].
    + now exists out.
    + exact He.
Qed.

Lemma effect_bind_0 {A B} n (m : M A) (k : A -> M B) :
  effect 0 m -> (forall x, effect n (k x)) -> effect n (bind m k).
Proof. intros Hm Hk. exact (effect_bind 0 n m k Hm Hk). Qed.

Lemma effect_bind_1 {A B} n (m : M A) (k : A -> M B) :
  effect 1 m -> (forall x, effect n (k x)) -> effect (S n) (bind m k).
Proof. intros Hm Hk. exact (effect_bind 1 n m k Hm Hk). Qed.

Lemma effect_leaf {A} n (m : M A) : effect 0 m -> effect n m.
Proof. intros H. apply (effect_weaken m 0 n H). lia. Qed.

Lemma effect_for_each {A} (xs : list A) (body : A -> M unit) :
  (forall x, effect 0 (body x)) -> effect 0 (for_each xs body).
Proof.
  intros H. induction xs as [| x xs IH]; cbn [for_each].
  - apply effect_ret.
  - apply effect_bind_0; [apply H | intros _; exact IH].
Qed.

Lemma effect_make_request ep params : effect 1 (_make_request env ep params).
Proof.
  intros w.
  destruct (make_request_log env ep params w)
    as (r & _ & _ & _ & _ & _ & [Ho He] & _).
  repeat split.
  - eexists; split; [apply make_request_sends |].
    split; [apply Nat.le_refl |].
    constructor; [| constructor].
    unfold well_formed, sent; cbn.
    repeat split. apply dict_get_set_same.
  - exists []. now rewrite Ho, app_nil_r.
  - exact He.
Qed.

Ltac effect_step :=
  lazymatch goal with
  | |- effect _ (bind (_make_request _ _ _) _) =>
      apply effect_bind_1; [apply effect_make_request | intros ?]
  | |- effect _ (bind _ _) => apply effect_bind_0; [| intros ?]
  | |- effect 1 (_make_request _ _ _) => apply effect_make_request
  | |- effect 0 (ret _) => apply effect_ret
  | |- effect 0 (raise _) => apply effect_raise
  | |- effect 0 (lift _) => apply effect_lift
  | |- effect 0 (print _) => apply effect_print
  | |- effect 0 (for_each _ _) => apply effect_for_each; intros ?
  | |- effect _ (if ?b then _ else _) => destruct b
  | |- effect _ (match ?x with _ => _ end) => destruct x
  | |- effect (S _) _ => apply effect_leaf
  end.

Lemma effect_resolve_artist q :
  effect (search_cost q) (resolve_artist_mbid env q).
Proof.
  unfold resolve_artist_mbid, search_cost, search_artist.
  destruct (is_valid_mbid q); repeat effect_step.
Qed.

Lemma effect_resolve_release q artist :
  effect (search_cost q) (resolve_release_mbid env q artist).
Proof.
  unfold resolve_release_mbid, search_cost, search_release.
  destruct (is_valid_mbid q); repeat effect_step.
Qed.

Lemma effect_release_entry ir : effect 0 (release_entry ir).
Proof. destruct ir. unfold release_entry. repeat effect_step. Qed.

Lemma effect_track_entry track : effect 0 (track_entry track).
Proof. unfold track_entry. repeat effect_step. Qed.

Lemma effect_medium_entry medium : effect 0 (medium_entry medium).
Proof.
  unfold medium_entry.
  repeat
    lazymatch goal with
    | |- effect 0 (track_entry _) => apply effect_track_entry
    | |- _ => effect_step
    end.
Qed.

Ltac effect_body :=
  repeat
    lazymatch goal with
    | |- effect 0 (release_entry _) => apply effect_release_entry
    | |- effect 0 (medium_entry _) => apply effect_medium_entry
    | |- _ => effect_step
    end.

(** What comes after the first line of a command. *)
Lemma effect_after_searching c args :
  exists rest : M unit,
    command_body env c args = bind (print (searching args)) (fun _ => rest) /\
    effect (search_cost (arg_query args) + lookups c) rest.
Proof.
  destruct c; cbn [command_body lookups];
    unfold artist_info_body, artist_releases_body, album_info_body,
      album_tracks_body;
    (eexists; split; [reflexivity |]);
    (apply effect_bind;
     [ first [apply effect_resolve_artist | apply effect_resolve_release]
     | intros mbid ]);
    unfold lookup_artist, lookup_release, browse_releases_by_artist;
    effect_body.
Qed.

Lemma effect_command_body c args :
  effect (search_cost (arg_query args) + lookups c) (command_body env c args).
Proof.
  destruct (effect_after_searching c args) as (rest & -> & H).
  apply effect_bind_0; [apply effect_print | intros _; exact H].
Qed.

End Effects.

(** ** Where exceptions come from *)

Create HintDb faults.

Lemma fails_Return {A} P (a : A) : fails_with P (Return a).
Proof. intros e H. discriminate. Qed.

Lemma fails_Fault {A} cls : fails_with is_fault (@Raise A (Fault cls)).
Proof. intros e H. injection H as <-. now exists cls. Qed.

Lemma fails_Raise {A B} P e : fails_with P (@Raise A e) -> fails_with P (@Raise B e).
Proof. intros H e' E. injection E as <-. now apply H. Qed.

#[local] Hint Resolve fails_Return fails_Fault : faults.

Lemma py_get_faults v k d : fails_with is_fault (py_get v k d).
Proof. destruct v; cbn; auto with faults. destruct (dict_get d0 k); auto with faults. Qed.

Lemma py_first_faults v : fails_with is_fault (py_first v).
Proof.
  destruct v as [| | | s | l |]; cbn; auto with faults.
  - destruct s; auto with faults.
  - destruct l; auto with faults.
Qed.

Lemma py_item_faults v k : fails_with is_fault (py_item v k).
Proof. destruct v; cbn; auto with faults. destruct (dict_get d k); auto with faults. Qed.

Lemma py_iter_faults v : fails_with is_fault (py_iter v).
Proof. destruct v; cbn; auto with faults. Qed.

Lemma py_iter_slice_faults n v : fails_with is_fault (py_iter_slice n v).
Proof. destruct v; cbn; auto with faults. Qed.

Lemma py_len_faults v : fails_with is_fault (py_len v).
Proof. destruct v; cbn; auto with faults. Qed.

Lemma py_format_right2_faults v : fails_with is_fault (py_format_right2 v).
Proof. destruct v; cbn; auto with faults. Qed.

Lemma comprehension_faults {A B} (f : A -> result B) xs :
  (forall x, fails_with is_fault (f x)) ->
  fails_with is_fault (comprehension f xs).
Proof.
  intros H. induction xs as [| x xs IH]; cbn; [auto with faults |].
  specialize (H x). destruct (f x) as [y | e]; [| exact (fails_Raise _ _ H)].
  destruct (comprehension f xs) as [ys | e]; [auto with faults | exact IH].
Qed.

Lemma str_join_faults sep items : fails_with is_fault (str_join sep items).
Proof.
  induction items as [| x rest IH]; cbn; [auto with faults |].
  destruct x; auto with faults.
  destruct rest as [| y rest']; [auto with faults |].
  destruct (str_join sep (y :: rest')); [auto with faults | exact IH].
Qed.

Lemma format_duration_faults v : fails_with is_fault (format_duration v).
Proof.
  unfold format_duration. destruct (truthy v); cbn; [| auto with faults].
  destruct (as_int v) as [ms |]; [| auto with faults].
  destruct (ms <? 0); auto with faults.
Qed.

Lemma track_duration_faults v : fails_with is_fault (track_duration v).
Proof.
  unfold track_duration. destruct (truthy v); [| auto with faults].
  apply format_duration_faults.
Qed.

Lemma names_of_faults v : fails_with is_fault (names_of v).
Proof.
  unfold names_of. pose proof (py_iter_slice_faults 10 v) as H.
  destruct (py_iter_slice 10 v); [| exact (fails_Raise _ _ H)].
  apply comprehension_faults. intros x. apply py_item_faults.
Qed.

Lemma credited_faults v : fails_with is_fault (credited v).
Proof.
  unfold credited. pose proof (py_iter_faults v) as H.
  destruct (py_iter v) as [acs |]; [| exact (fails_Raise _ _ H)].
  pose proof (comprehension_faults
                (fun ac => py_get ac "name" (PStr "Unknown")) acs
                (fun x => py_get_faults x _ _)) as H2.
  destruct (comprehension _ acs);
    [apply str_join_faults | exact (fails_Raise _ _ H2)].
Qed.

Lemma label_name_faults li : fails_with is_fault (label_name li).
Proof.
  unfold label_name. pose proof (py_get_faults li "label" (PDict [])) as H.
  destruct (py_get li "label" (PDict [])); [apply py_get_faults | exact H].
Qed.

Lemma labels_faults lis : fails_with is_fault (comprehension label_name lis).
Proof. apply comprehension_faults. exact label_name_faults. Qed.

#[local] Hint Resolve labels_faults : faults.

#[local] Hint Resolve py_get_faults py_first_faults py_item_faults py_iter_faults
  py_iter_slice_faults py_len_faults py_format_right2_faults str_join_faults
  format_duration_faults track_duration_faults names_of_faults credited_faults
  label_name_faults : faults.

Section Throws.

Variable env : environment.
Variable P : exn -> Prop.
Hypothesis P_fault : forall e, is_fault e -> P e.
Hypothesis P_client : forall e, from_client e -> P e.

Lemma throws_ret {A} (a : A) : throws P (ret a).
Proof. intros w e H. discriminate. Qed.

Lemma throws_raise {A} e : P e -> throws P (@raise A e).
Proof. intros H w e' E. cbn in E. now injection E as <-. Qed.

Lemma throws_lift {A} (r : result A) : fails_with is_fault r -> throws P (lift r).
Proof. intros H w e E. apply P_fault, H. exact E. Qed.

Lemma throws_print l : throws P (print l).
Proof. intros w e H. discriminate. Qed.

Lemma throws_bind {A B} (m : M A) (k : A -> M B) :
  throws P m -> (forall x, throws P (k x)) -> throws P (bind m k).
Proof.
  intros Hm Hk w e. unfold bind. specialize (Hm w).
  destruct (m w) as [[x | e'] w1]; cbn [fst] in *.
  - apply Hk.
  - intros E. injection E as <-. now apply Hm.
Qed.

Lemma throws_for_each {A} (xs : list A) (body : A -> M unit) :
  (forall x, throws P (body x)) -> throws P (for_each xs body).
Proof.
  intros H. induction xs as [| x xs IH]; cbn [for_each].
  - apply throws_ret.
  - apply throws_bind; [apply H | intros _; exact IH].
Qed.

Lemma throws_make_request ep params : throws P (_make_request env ep params).
Proof.
  intros w e.
  destruct (rate_limit_run env w) as (w1 & R & _).
  unfold _make_request. rewrite (bind_Return _ _ _ _ _ R).
  unfold bind, dispatch; cbn.
  destruct (urlopen env _) as [data | code reason | reason | text |]; cbn;
    [ destruct (json_loads env data)
    | destruct (code =? 404); [| destruct (code =? 503); [| destruct (code =? 400)]]
    | | | ]; cbn; intros E; try discriminate; injection E as <-;
    apply P_client; unfold from_client; eauto.
Qed.

Ltac throws_step :=
  lazymatch goal with
  | |- throws _ (bind _ _) => apply throws_bind; [| intros ?]
  | |- throws _ (_make_request _ _ _) => apply throws_make_request
  | |- throws _ (ret _) => apply throws_ret
  | |- throws _ (lift _) => apply throws_lift; auto with faults
  | |- throws _ (print _) => apply throws_print
  | |- throws _ (for_each _ _) => apply throws_for_each; intros ?
  | |- throws _ (if ?b then _ else _) => destruct b
  | |- throws _ (match ?x with _ => _ end) => destruct x
  end.

Lemma throws_resolve_artist q :
  P (ValueError ("Artist '" ++ q ++ "' not found")) ->
  throws P (resolve_artist_mbid env q).
Proof.
  intros H. unfold resolve_artist_mbid, search_artist.
  repeat first [apply (throws_raise _ H) | throws_step].
Qed.

Lemma throws_resolve_release q artist :
  P (ValueError (release_not_found q artist)) ->
  throws P (resolve_release_mbid env q artist).
Proof.
  intros H. unfold resolve_release_mbid, search_release.
  destruct (is_valid_mbid q); [apply throws_ret |].
  unfold release_not_found in H.
  apply throws_bind; [apply throws_make_request | intros results].
  apply throws_bind; [throws_step | intros releases].
  destruct (negb (truthy releases)).
  - destruct (supplied artist); apply (throws_raise _ H).
  - repeat throws_step.
Qed.

Lemma throws_release_entry ir : throws P (release_entry ir).
Proof. destruct ir. unfold release_entry. repeat throws_step. Qed.

Lemma throws_track_entry track : throws P (track_entry track).
Proof. unfold track_entry. repeat throws_step. Qed.

Lemma throws_medium_entry medium : throws P (medium_entry medium).
Proof.
  unfold medium_entry.
  repeat
    lazymatch goal with
    | |- throws _ (track_entry _) => apply throws_track_entry
    | |- _ => throws_step
    end.
Qed.

Lemma throws_command_body args :
  P (ValueError (not_found_message args)) ->
  throws P (command_body env (arg_command args) args).
Proof.
  unfold not_found_message.
  destruct (arg_command args); cbn [command_body]; intros H;
    unfold artist_info_body, artist_releases_body, album_info_body,
      album_tracks_body, lookup_artist, lookup_release,
      browse_releases_by_artist;
    repeat
      lazymatch goal with
      | |- throws _ (resolve_artist_mbid _ _) =>
          apply (throws_resolve_artist _ H)
      | |- throws _ (resolve_release_mbid _ _ _) =>
          apply (throws_resolve_release _ _ H)
      | |- throws _ (release_entry _) => apply throws_release_entry
      | |- throws _ (medium_entry _) => apply throws_medium_entry
      | |- _ => throws_step
      end.
Qed.

End Throws.

(** ** What a run of [main] does *)



Lemma command_stderr env args w :
  stderr (snd (command_body env (arg_command args) args (started w))) = stderr w.
Proof.
  destruct (effect_command_body env (arg_command args) args (started w))
    as (_ & _ & He).
  exact He.
Qed.

(** The body of a command does not exit by itself: [sys.exit] is called in
    the handlers only. *)
Lemma command_body_no_exit env args w code :
  fst (command_body env (arg_command args) args w) <> Raise (SystemExit code).
Proof.
  intros H.
  assert (T : throws (fun e => forall code, e <> SystemExit code)
                (command_body env (arg_command args) args)).
  { apply throws_command_body.
    - intros e (cls & ->) c. discriminate.
    - intros e [(msg & ->) | ->] c; discriminate.
    - intros c. discriminate. }
  exact (T w _ H code eq_refl).
Qed.

(** X8.  Once the arguments are parsed, a run of [main] ends in one of five
    ways: it returns, with nothing on the error stream; or it exits with 1
    after a line [Error: <message>], the message of a [ValueError] such as
    the resolver's not-found message; with 2 after an [API Error:] line;
    with 130 after [Interrupted by user.]; with 1 after an
    [Unexpected error:] line about any other exception.  No other exit
    status occurs and no exception escapes; a failure puts exactly one line
    on the error stream, and nothing else is ever written there. *)
Theorem main_ends env args w :
  let r := fst (main env args w) in
  let err := stderr (snd (main env args w)) in
  (r = Return tt /\ err = stderr w) \/
  (exists msg,
     r = Raise (SystemExit 1) /\
     err = (stderr w ++ [[Text (nl ++ "Error: " ++ msg)]])%list) \/
  (exists msg,
     r = Raise (SystemExit 2) /\
     err = (stderr w ++ [[Text (nl ++ "API Error: " ++ msg)]])%list) \/
  (r = Raise (SystemExit 130) /\
   err = (stderr w ++ [[Text (nl ++ nl ++ "Interrupted by user.")]])%list) \/
  (exists cls,
     r = Raise (SystemExit 1) /\
     err = (stderr w ++
            [[Text (nl ++ "Unexpected error: "); StrExn (Fault cls)]])%list).
Proof.
  cbv zeta. rewrite main_run. cbv zeta.
  pose proof (command_stderr env args w) as He.
  pose proof (command_body_no_exit env args (started w)) as Hx.
  set (w1 := snd (command_body env (arg_command args) args (started w))) in *.
  destruct (fst (command_body env (arg_command args) args (started w)))
    as [[] | e].
  - left. now split.
  - destruct e as [msg | msg | cls | | code];
      unfold with_stderr; cbn [print_err fst snd stderr]; try rewrite He.
    + right. left. exists msg. now split.
    + right. right. left. exists msg. now split.
    + right. right. right. right. exists cls. now split.
    + right. right. right. left. now split.
    + now destruct (Hx code).
Qed.

(** ** Lists as text *)

Lemma append_nil (s : string) : s ++ "" = s.
Proof. induction s; cbn; congruence. Qed.

Lemma render_app l1 l2 a b :
  render l1 = Some a -> render l2 = Some b ->
  render (l1 ++ l2)%list = Some (a ++ b).
Proof.
  revert a. induction l1 as [| f l1 IH]; intros a H1 H2; cbn in *.
  - injection H1 as <-. exact H2.
  - destruct f as [s | v | e | v spec]; try discriminate.
    + destruct (render l1) as [t |]; [| discriminate].
      injection H1 as <-. rewrite (IH t eq_refl H2). now rewrite append_assoc.
    + destruct (render l1) as [t |]; [| discriminate].
      destruct (py_str v) as [s |]; [| discriminate].
      injection H1 as <-. rewrite (IH t eq_refl H2). now rewrite append_assoc.
Qed.

Lemma render_join_str sep items strs :
  map py_str items = map Some strs ->
  render (join_str sep items) = Some (String.concat sep strs).
Proof.
  revert strs. induction items as [| x rest IH]; intros strs H.
  - destruct strs; [reflexivity | discriminate].
  - destruct strs as [| s strs']; [discriminate |].
    cbn [map] in H. injection H as Hx Hrest.
    destruct rest as [| y rest'].
    + destruct strs'; [| discriminate]. cbn. rewrite Hx. now rewrite append_nil.
    + destruct strs' as [| s' strs'']; [discriminate |].
      specialize (IH (s' :: strs'') Hrest).
      change (join_str sep (x :: y :: rest'))
        with (Str x :: Text sep :: join_str sep (y :: rest')).
      cbn [render]. rewrite IH, Hx. reflexivity.
Qed.

Lemma slice_to_map {A B} (f : A -> B) n l :
  slice_to n (map f l) = map f (slice_to n l).
Proof. unfold slice_to. rewrite length_map. destruct (n <? 0); apply firstn_map. Qed.

(** X9.  [format_list] on items whose [str] is [strs]: "None" for the empty
    list; the items joined by ", " when there are at most [max_items]; else
    the slice [items[:max_items]] joined by ", " and followed by ", ...".  The
    slice holds the first [max_items] items, none when [max_items] is 0, and
    all but the last [-max_items] when [max_items] is negative. *)
Theorem format_list_text items strs max_items :
  map py_str items = map Some strs ->
  render (format_list items max_items) =
  Some (match strs with
        | [] => "None"
        | _ =>
            if Z.of_nat (List.length strs) <=? max_items
            then String.concat ", " strs
            else String.concat ", " (slice_to max_items strs) ++ ", ..."
        end).
Proof.
  intros H.
  assert (L : List.length items = List.length strs).
  { apply (f_equal (@List.length _)) in H. now rewrite !length_map in H. }
  unfold format_list.
  destruct items as [| x rest]; [destruct strs; [reflexivity | discriminate] |].
  destruct strs as [| s strs']; [discriminate |].
  rewrite L. destruct (_ <=? max_items).
  - now apply render_join_str.
  - apply render_app; [| reflexivity].
    apply render_join_str.
    now rewrite <- !slice_to_map, H.
Qed.

Lemma format_list_text_witness :
  render (format_list (map PStr ["a"; "b"; "c"; "d"; "e"; "f"; "g"]) 5) =
  Some "a, b, c, d, e, ...".
Proof.
  apply (format_list_text (map PStr ["a"; "b"; "c"; "d"; "e"; "f"; "g"])
           ["a"; "b"; "c"; "d"; "e"; "f"; "g"] 5).
  reflexivity.
Defined.

(** ** The first result *)

(** X10.  Once [is_valid_mbid] has rejected the query and the search has
    come back with a document holding a list of results, a resolver looks
    at the first result only: it answers with that result's ['id'],
    whatever follows in the list; with the not-found [ValueError] when the
    list is empty; and when the first result has no ['id'], or is no
    object, with the [KeyError] or [TypeError] of that access. *)
Theorem resolver_takes_first_result env q artist w d l :
  is_valid_mbid q = false ->
  next_document env w = Some (PDict d) ->
  (dict_get d "artists" = Some (PList l) ->
   fst (resolve_artist_mbid env q w) =
   match l with
   | [] => Raise (ValueError ("Artist '" ++ q ++ "' not found"))
   | first :: _ => py_item first "id"
   end) /\
  (dict_get d "releases" = Some (PList l) ->
   fst (resolve_release_mbid env q artist w) =
   match l with
   | [] => Raise (ValueError (release_not_found q artist))
   | first :: _ => py_item first "id"
   end).
Proof.
  intros V D. split; intros A.
  - rewrite (resolve_artist_run env q w V). cbn [fst].
    unfold search_artist. rewrite (make_request_returns env _ _ w _ D).
    cbn [and_then]. apply (first_id_list _ _ _ _ A).
  - rewrite (resolve_release_run env q artist w V). cbn [fst].
    unfold search_release. rewrite (make_request_returns env _ _ w _ D).
    cbn [and_then]. apply (first_id_list _ _ _ _ A).
Qed.

Lemma resolver_takes_first_result_witness :
  fst (resolve_release_mbid record_shop "OK Computer" (Some "Radiohead") (boot 0)) =
  py_item (PDict [("id", PStr "0b6b4ba0-d36f-47bd-b4ea-6a5b91842d29");
                  ("title", PStr "OK Computer")]) "id".
Proof.
  apply (proj2 (resolver_takes_first_result record_shop "OK Computer"
                  (Some "Radiohead") (boot 0)
                  [("releases",
                    PList [PDict [("id", PStr "0b6b4ba0-d36f-47bd-b4ea-6a5b91842d29");
                                  ("title", PStr "OK Computer")]])]
                  [PDict [("id", PStr "0b6b4ba0-d36f-47bd-b4ea-6a5b91842d29");
                          ("title", PStr "OK Computer")]]
                  eq_refl eq_refl)).
  reflexivity.
Defined.

(** A command stops where its resolver raises. *)
Lemma command_body_stops env args w e w2 :
  match arg_command args with
  | artist_info | artist_releases =>
      resolve_artist_mbid env (arg_query args)
        (snd (print (searching args) w)) = (Raise e, w2)
  | album_info | album_tracks =>
      resolve_release_mbid env (arg_query args) (supplied (arg_artist args))
        (snd (print (searching args) w)) = (Raise e, w2)
  end ->
  command_body env (arg_command args) args w = (Raise e, w2).
Proof.
  destruct (arg_command args); cbn [command_body]; intros H;
    unfold artist_info_body, artist_releases_body, album_info_body,
      album_tracks_body;
    unfold bind at 1; cbn [print];
    apply (bind_Raise _ _ _ _ _ H).
Qed.

(** X11.  When the first result of the search has no ['id'], or is no
    object, the run does not end as a failed resolution: [main] reports an
    unexpected error, about the [KeyError] or [TypeError] of the access, and
    exits with 1. *)
Theorem first_result_without_id env args w d first rest e :
  is_valid_mbid (arg_query args) = false ->
  next_document env w = Some (PDict d) ->
  dict_get d (result_key (arg_command args)) = Some (PList (first :: rest)) ->
  py_item first "id" = Raise e ->
  exists cls,
    e = Fault cls /\
    fst (main env args w) = Raise (SystemExit 1) /\
    stderr (snd (main env args w)) =
    (stderr w ++ [[Text (nl ++ "Unexpected error: "); StrExn (Fault cls)]])%list.
Proof.
  intros V D K I.
  destruct (py_item_faults first "id" e I) as (cls & ->).
  exists cls. split; [reflexivity |].
  set (w1 := snd (print (searching args) (started w))).
  assert (D1 : next_document env w1 = Some (PDict d)) by exact D.
  assert (R : exists w2,
             match arg_command args with
             | artist_info | artist_releases =>
                 resolve_artist_mbid env (arg_query args) w1
             | album_info | album_tracks =>
                 resolve_release_mbid env (arg_query args)
                   (supplied (arg_artist args)) w1
             end = (Raise (Fault cls), w2)).
  { destruct (arg_command args); cbn [result_key] in K; eexists;
      first
        [ rewrite (resolve_artist_run env _ w1 V); unfold search_artist
        | rewrite (resolve_release_run env _ _ w1 V); unfold search_release ];
      rewrite (make_request_returns env _ _ w1 _ D1); cbn [and_then];
      rewrite (first_id_list _ _ _ _ K), I; reflexivity. }
  destruct R as (w2 & R).
  assert (B : command_body env (arg_command args) args (started w) =
              (Raise (Fault cls), w2)).
  { apply command_body_stops. fold w1. destruct (arg_command args); exact R. }
  pose proof (command_stderr env args w) as He.
  rewrite main_run. cbv zeta. rewrite B in *. cbn [fst snd] in *.
  split; [reflexivity |].
  unfold with_stderr. cbn [print_err snd stderr]. now rewrite He.
Qed.

Lemma first_result_without_id_witness :
  exists cls,
    Fault "KeyError" = Fault cls /\
    fst (main nameless_result ok_computer (boot 0)) = Raise (SystemExit 1) /\
    stderr (snd (main nameless_result ok_computer (boot 0))) =
    (stderr (boot 0) ++
     [[Text (nl ++ "Unexpected error: "); StrExn (Fault cls)]])%list.
Proof.
  apply (first_result_without_id nameless_result ok_computer (boot 0)
           [("releases", PList [PDict [("title", PStr "OK Computer")]])]
           (PDict [("title", PStr "OK Computer")]) [] (Fault "KeyError")).
  - vm_compute. reflexivity.
  - reflexivity.
  - reflexivity.
  - reflexivity.
Defined.

(** ** A lookup that finds nothing *)

Lemma make_request_404 env ep params w :
  (forall k, exists reason, urlopen env k = RaisesHTTPError 404 reason) ->
  exists w2,
    _make_request env ep params w = (Return not_found_document, w2) /\
    stdout w2 = stdout w /\ stderr w2 = stderr w.
Proof.
  intros H.
  assert (D : next_document env w = Some not_found_document).
  { unfold next_document.
    destruct (H (List.length (requests w))) as (reason & ->). reflexivity. }
  pose proof (make_request_returns env ep params w _ D) as F.
  destruct (make_request_log env ep params w)
    as (r & _ & _ & _ & _ & _ & [Ho He] & _).
  exists (snd (_make_request env ep params w)).
  repeat split; [| exact Ho | exact He].
  rewrite <- F. apply surjective_pairing.
Qed.

Lemma placeholders_body env args w :
  is_valid_mbid (arg_query args) = true ->
  (forall k, exists reason, urlopen env k = RaisesHTTPError 404 reason) ->
  exists w',
    command_body env (arg_command args) args w = (Return tt, w') /\
    stdout w' =
      (stdout w ++ searching args :: placeholders (arg_command args))%list /\
    stderr w' = stderr w.
Proof.
  intros V H.
  destruct (arg_command args); cbn [command_body];
    unfold artist_info_body, artist_releases_body, album_info_body,
      album_tracks_body, resolve_artist_mbid, resolve_release_mbid,
      lookup_artist, lookup_release, browse_releases_by_artist;
    rewrite V;
    repeat
      (cbn -[_make_request rule nl String.append];
       match goal with
       | |- context [bind (_make_request env ?ep ?ps) ?k ?w0] =>
           let w2 := fresh "w" in
           let E := fresh "E" in
           let So := fresh "So" in
           let Se := fresh "Se" in
           destruct (make_request_404 env ep ps w0 H) as (w2 & E & So & Se);
           rewrite (bind_Return _ k _ _ _ E); cbn [stdout stderr] in So, Se
       end).
  all: cbn -[rule nl String.append].
  all: eexists; split; [reflexivity |].
  all: cbn [stdout stderr].
  all: repeat match goal with
              | Hs : stdout _ = _ |- _ => rewrite Hs; clear Hs
              | Hs : stderr _ = _ |- _ => rewrite Hs; clear Hs
              end.
  all: split; [rewrite <- ?app_assoc; reflexivity | reflexivity].
Qed.

(** X12.  A lookup that is answered with 404 is no error for any command.
    Given a query of the identifier shape (8-4-4-4-12 hexadecimal digits,
    nothing after them) and a service that answers every request with 404,
    the run prints its first line and the placeholders of the command
    ("Unknown", "N/A", no releases, no track information), writes nothing
    on the error stream and returns: exit status 0. *)
Theorem lookup_not_found_is_no_error env args w :
  mbid_shape (arg_query args) = true ->
  (forall k, exists reason, urlopen env k = RaisesHTTPError 404 reason) ->
  fst (main env args w) = Return tt /\
  exit_status (fst (main env args w)) = Some 0 /\
  stdout (snd (main env args w)) =
    (stdout w ++ searching args :: placeholders (arg_command args))%list /\
  stderr (snd (main env args w)) = stderr w.
Proof.
  intros V H. apply mbid_shape_valid in V.
  destruct (placeholders_body env args (started w) V H) as (w' & B & So & Se).
  rewrite main_run. cbv zeta. rewrite B. cbn [fst snd exit_status].
  repeat split; assumption.
Qed.

Lemma lookup_not_found_is_no_error_witness :
  let args :=
    {| arg_command := artist_info; arg_query := radiohead; arg_limit := 25;
       arg_type := None; arg_status := None; arg_artist := None |} in
  fst (main quiet_env args (boot 0)) = Return tt /\
  exit_status (fst (main quiet_env args (boot 0))) = Some 0 /\
  stdout (snd (main quiet_env args (boot 0))) =
    (stdout (boot 0) ++ searching args :: placeholders artist_info)%list /\
  stderr (snd (main quiet_env args (boot 0))) = stderr (boot 0).
Proof.
  intros args.
  apply (lookup_not_found_is_no_error quiet_env args (boot 0)).
  - vm_compute. reflexivity.
  - intros k. exists "Not Found". reflexivity.
Defined.

(** ** The loop over the releases *)

Lemma add_stdout_nil w : add_stdout [] w = w.
Proof. destruct w. unfold add_stdout. cbn. now rewrite app_nil_r. Qed.

Lemma add_stdout_app a b w :
  add_stdout b (add_stdout a w) = add_stdout (a ++ b) w.
Proof. unfold add_stdout. cbn. now rewrite app_assoc. Qed.

Lemma release_entry_run i d w :
  release_entry (i, PDict d) w = (Return tt, add_stdout (release_block i d) w).
Proof.
  unfold release_entry, bind, lift, py_get, release_block, field, add_stdout.
  destruct (dict_get d "title"), (dict_get d "date"), (dict_get d "status"),
    (dict_get d "id"); unfold print; cbn; rewrite <- !app_assoc; reflexivity.
Qed.

Lemma release_entry_no_dict i v w :
  is_dict v = false ->
  release_entry (i, v) w = (Raise (Fault "AttributeError"), w).
Proof. destruct v; cbn; intros H; try discriminate; reflexivity. Qed.

(** X13.  The loop of [artist-releases] prints, for each release in the
    order of the list, the four lines of the release, numbered from the
    start value upwards.  When an element of the list is not an object the
    loop stops there with an [AttributeError], the releases before it having
    been printed. *)
Theorem release_loop_prints_in_order ds :
  forall start w,
    for_each (enumerate start (map PDict ds)) release_entry w =
      (Return tt, add_stdout (release_blocks start ds) w) /\
    (forall bad rest,
       is_dict bad = false ->
       for_each (enumerate start (map PDict ds ++ bad :: rest)%list)
         release_entry w =
       (Raise (Fault "AttributeError"), add_stdout (release_blocks start ds) w)) /\
    map fst (enumerate start ds) =
      map (fun k => start + Z.of_nat k) (seq 0 (List.length ds)).
Proof.
  induction ds as [| d ds IH]; intros start w.
  - unfold release_blocks. cbn [map enumerate for_each flat_map app List.length seq].
    rewrite add_stdout_nil. repeat split.
    intros bad rest B. unfold bind.
    now rewrite (release_entry_no_dict _ _ _ B).
  - destruct (IH (start + 1) (add_stdout (release_block start d) w))
      as (I1 & I2 & I3).
    unfold release_blocks in *. cbn [map enumerate for_each flat_map app fst snd].
    repeat split.
    + unfold bind. rewrite release_entry_run, I1, add_stdout_app. reflexivity.
    + intros bad rest B. unfold bind.
      rewrite release_entry_run, (I2 bad rest B), add_stdout_app. reflexivity.
    + cbn [List.length seq map]. rewrite I3, <- seq_shift, map_map.
      f_equal; [lia |]. apply map_ext. intros k. lia.
Qed.

Lemma release_loop_prints_in_order_witness :
  for_each (enumerate 1 [PDict airbag; PNone]) release_entry (boot 0) =
  (Raise (Fault "AttributeError"),
   add_stdout (release_blocks 1 [airbag]) (boot 0)).
Proof.
  apply (proj1 (proj2 (release_loop_prints_in_order [airbag] 1 (boot 0)))
           PNone []).
  reflexivity.
Defined.

(** ** Lengths that are no durations *)

(** X14.  In the track list a length that is negative, or positive but
    below one second, gives the duration "0:00" (it is truthy, so
    [format_duration] is called), as does the length [true]; a length that
    is a non-empty string makes the loop raise a [TypeError]. *)
Theorem track_entry_odd_lengths (d : dict) (w : world) :
  let length := field d "length" (PInt 0) in
  (forall ms, length = PInt ms -> ms < 0 \/ 0 < ms < 1000 ->
   track_entry (PDict d) w = track_line d "0:00" w) /\
  (length = PBool true -> track_entry (PDict d) w = track_line d "0:00" w) /\
  (forall s, length = PStr s -> s <> "" ->
   track_entry (PDict d) w = (Raise (Fault "TypeError"), w)).
Proof.
  intros length. subst length. rewrite track_entry_run.
  unfold track_duration. repeat split.
  - intros ms E H. rewrite E.
    assert (T : truthy (PInt ms) = true).
    { cbn. apply negb_true_iff, Z.eqb_neq. lia. }
    rewrite T, format_duration_int.
    destruct (ms <=? 0) eqn:L; [reflexivity |].
    apply Z.leb_gt in L.
    assert (Z0 : ms / 60000 = 0) by (apply Z.div_small; lia).
    assert (Z1 : ms / 1000 = 0) by (apply Z.div_small; lia).
    rewrite Z0, Z1. reflexivity.
  - intros E. rewrite E. reflexivity.
  - intros s E N. rewrite E. unfold format_duration. cbn [truthy as_int].
    destruct (String.eqb_spec s ""); [contradiction | reflexivity].
Qed.

Lemma track_entry_odd_lengths_witness :
  track_entry (PDict [("title", PStr "Intro"); ("length", PInt 500)]) (boot 0) =
  track_line [("title", PStr "Intro"); ("length", PInt 500)] "0:00" (boot 0).
Proof.
  apply (proj1 (track_entry_odd_lengths
                  [("title", PStr "Intro"); ("length", PInt 500)] (boot 0))
           500 eq_refl).
  right. lia.
Defined.

(** ** A first request that fails *)

Lemma make_request_raises env ep params w e :
  next_error env w = Some e ->
  _make_request env ep params w = (Raise e, snd (_make_request env ep params w)).
Proof.
  unfold next_error. intros H.
  rewrite (surjective_pairing (_make_request env ep params w)) at 1.
  f_equal.
  destruct (rate_limit_run env w) as (w1 & R & Hreq & _).
  unfold _make_request. rewrite (bind_Return _ _ _ _ _ R).
  unfold bind, dispatch. rewrite Hreq. cbn.
  destruct (urlopen env _) as [data | code reason | reason | text |]; cbn.
  - destruct (json_loads env data); [discriminate | now injection H as <-].
  - destruct (code =? 404); [discriminate |].
    destruct (code =? 503); [now injection H as <- |].
    destruct (code =? 400); now injection H as <-.
  - now injection H as <-.
  - now injection H as <-.
  - now injection H as <-.
Qed.

Lemma first_request_fails_body env args w e :
  next_error env w = Some e ->
  exists w2,
    command_body env (arg_command args) args w = (Raise e, w2) /\
    List.length (requests w2) = S (List.length (requests w)) /\
    stdout w2 = (stdout w ++ [searching args])%list /\
    stderr w2 = stderr w.
Proof.
  intros N.
  set (w1 := snd (print (searching args) w)).
  assert (N1 : next_error env w1 = Some e) by exact N.
  assert (W : forall ep ps,
             List.length (requests (snd (_make_request env ep ps w1))) =
               S (List.length (requests w)) /\
             stdout (snd (_make_request env ep ps w1)) =
               (stdout w ++ [searching args])%list /\
             stderr (snd (_make_request env ep ps w1)) = stderr w).
  { intros ep ps.
    destruct (make_request_log env ep ps w1)
      as (r & L & _ & _ & _ & _ & [Ho He] & _).
    rewrite L, List.length_app, Ho, He. cbn. split; [lia | now split]. }
  destruct (is_valid_mbid (arg_query args)) eqn:V.
  - destruct (arg_command args); cbn [command_body];
      unfold artist_info_body, artist_releases_body, album_info_body,
        album_tracks_body, resolve_artist_mbid, resolve_release_mbid,
        lookup_artist, lookup_release;
      rewrite V; cbn -[_make_request rule nl String.append];
      match goal with
      | |- context [bind (_make_request env ?ep ?ps) ?k ?w0] =>
          rewrite (bind_Raise _ k w0 _ _ (make_request_raises env ep ps w0 e N1));
          eexists; split; [reflexivity | exact (W ep ps)]
      end.
  - assert (R : exists w2,
               match arg_command args with
               | artist_info | artist_releases =>
                   resolve_artist_mbid env (arg_query args) w1
               | album_info | album_tracks =>
                   resolve_release_mbid env (arg_query args)
                     (supplied (arg_artist args)) w1
               end = (Raise e, w2) /\
               List.length (requests w2) = S (List.length (requests w)) /\
               stdout w2 = (stdout w ++ [searching args])%list /\
               stderr w2 = stderr w).
    { destruct (arg_command args); eexists;
        first
          [ rewrite (resolve_artist_run env _ w1 V); unfold search_artist
          | rewrite (resolve_release_run env _ _ w1 V); unfold search_release ];
        rewrite (make_request_raises env _ _ w1 e N1); cbn [fst snd and_then];
        (split; [reflexivity | apply W]). }
    destruct R as (w2 & R & Hw).
    exists w2. split; [| exact Hw].
    apply command_body_stops. fold w1. destruct (arg_command args); exact R.
Qed.

(** X15.  When the first request of a run fails, the run ends there,
    whatever the command and the query: one request has been sent and never
    repeated, the standard output holds the first line only, and [main]
    exits with 2 after the [API Error:] line with the message of the client,
    or with 130 after [Interrupted by user.] when the user interrupted the
    request. *)
Theorem first_request_failure env args w e :
  next_error env w = Some e ->
  let r := fst (main env args w) in
  let final := snd (main env args w) in
  List.length (requests final) = S (List.length (requests w)) /\
  stdout final = (stdout w ++ [searching args])%list /\
  match e with
  | APIError msg =>
      r = Raise (SystemExit 2) /\
      stderr final = (stderr w ++ [[Text (nl ++ "API Error: " ++ msg)]])%list
  | KeyboardInterrupt =>
      r = Raise (SystemExit 130) /\
      stderr final =
      (stderr w ++ [[Text (nl ++ nl ++ "Interrupted by user.")]])%list
  | _ => False
  end.
Proof.
  intros N.
  assert (N0 : next_error env (started w) = Some e) by exact N.
  destruct (first_request_fails_body env args (started w) e N0)
    as (w2 & B & Hl & Ho & He).
  cbv zeta. rewrite main_run. cbv zeta. rewrite B. cbn [fst snd].
  assert (K : (exists msg, e = APIError msg) \/ e = KeyboardInterrupt).
  { unfold next_error in N.
    destruct (urlopen env _) as [data | code reason | reason | text |].
    - destruct (json_loads env data); [discriminate |].
      injection N as <-. left. eauto.
    - destruct (code =? 404); [discriminate |].
      destruct (code =? 503); [injection N as <-; left; eauto |].
      destruct (code =? 400); injection N as <-; left; eauto.
    - injection N as <-. left. eauto.
    - injection N as <-. left. eauto.
    - injection N as <-. now right. }
  destruct K as [(msg & ->) | ->]; unfold with_stderr;
    cbn [print_err snd stderr stdout requests]; rewrite He;
    repeat split; assumption.
Qed.

Lemma first_request_failure_witness :
  List.length (requests (snd (main out_of_service ok_computer (boot 0)))) =
    S (List.length (requests (boot 0))) /\
  stdout (snd (main out_of_service ok_computer (boot 0))) =
    (stdout (boot 0) ++ [searching ok_computer])%list /\
  fst (main out_of_service ok_computer (boot 0)) = Raise (SystemExit 2) /\
  stderr (snd (main out_of_service ok_computer (boot 0))) =
    (stderr (boot 0) ++
     [[Text (nl ++ "API Error: " ++
             "MusicBrainz service unavailable (503). Try again later.")]])%list.
Proof.
  apply (first_request_failure out_of_service ok_computer (boot 0)
           (APIError "MusicBrainz service unavailable (503). Try again later.")).
  reflexivity.
Defined.

(** ** The loop over the tracks *)

Lemma track_entry_row d row w :
  track_row d = Some row ->
  track_entry (PDict d) w = (Return tt, add_stdout [row] w).
Proof.
  unfold track_row. intros H. rewrite track_entry_run. unfold track_line.
  destruct (track_duration _) as [duration |]; [| discriminate].
  destruct (py_format_right2 _) as [pos |]; [| discriminate].
  now injection H as <-.
Qed.

Lemma track_loop ds : forall rows w,
  map track_row ds = map Some rows ->
  for_each (map PDict ds) track_entry w = (Return tt, add_stdout rows w).
Proof.
  induction ds as [| d ds IH]; intros rows w H.
  - destruct rows; [| discriminate]. cbn. now rewrite add_stdout_nil.
  - destruct rows as [| row rows]; [discriminate |].
    cbn [map] in H. injection H as Hd Hrest.
    cbn [map for_each]. unfold bind.
    rewrite (track_entry_row _ _ _ Hd), (IH _ _ Hrest), add_stdout_app.
    reflexivity.
Qed.

(** X16.  For a medium whose tracks can all be rendered, [album-tracks]
    prints a heading with the format, the position and the track count of
    the medium (by default "Medium", 1 and 0; the count is the field of the
    document, not the number of tracks listed), an empty line, one line per
    track in the order of the list, and an empty line. *)
Theorem medium_prints_tracks m ds rows w :
  dict_get m "tracks" = Some (PList (map PDict ds)) ->
  map track_row ds = map Some rows ->
  medium_entry (PDict m) w =
  (Return tt, add_stdout (medium_heading m :: [] :: rows ++ [[]])%list w).
Proof.
  intros T R.
  unfold medium_entry, bind, lift, py_get, medium_heading, field.
  rewrite T.
  destruct (dict_get m "position"), (dict_get m "format"),
    (dict_get m "track-count"); cbn -[for_each add_stdout];
    rewrite (track_loop ds rows _ R);
    unfold print, add_stdout; cbn; rewrite <- !app_assoc; reflexivity.
Qed.

Lemma medium_prints_tracks_witness :
  medium_entry
    (PDict [("format", PStr "CD"); ("tracks", PList (map PDict [airbag; untimed]))])
    (boot 0) =
  (Return tt,
   add_stdout
     (medium_heading
        [("format", PStr "CD"); ("tracks", PList (map PDict [airbag; untimed]))]
      :: [] ::
      [ [Text "  "; Fmt (PStr "1") ">2"; Text ". "; Str (PStr "Airbag");
         Text " (4:45)"];
        [Text "  "; Fmt (PStr "2") ">2"; Text ". "; Str (PStr "Paranoid Android");
         Text " (?)"] ] ++ [[]])%list
     (boot 0)).
Proof.
  apply (medium_prints_tracks
           [("format", PStr "CD"); ("tracks", PList (map PDict [airbag; untimed]))]
           [airbag; untimed]).
  - reflexivity.
  - reflexivity.
Defined.

(** ** Artist credits *)

Lemma credited_names acs :
  credited (PList (map PDict acs)) = str_join ", " (map credit_name acs).
Proof.
  unfold credited. cbn [py_iter].
  assert (C : comprehension (fun ac => py_get ac "name" (PStr "Unknown"))
                (map PDict acs) = Return (map credit_name acs)).
  { induction acs as [| ac acs IH]; [reflexivity |].
    cbn [map comprehension]. rewrite IH.
    unfold py_get, credit_name, field. now destruct (dict_get ac "name"). }
  now rewrite C.
Qed.

Lemma str_join_strings sep names :
  str_join sep (map PStr names) = Return (String.concat sep names).
Proof.
  induction names as [| s names IH]; [reflexivity |].
  cbn [map str_join]. destruct names as [| s' names']; [reflexivity |].
  cbn [map] in *. rewrite IH. reflexivity.
Qed.

Lemma str_join_not_string sep names v rest :
  (forall s, v <> PStr s) ->
  str_join sep (map PStr names ++ v :: rest)%list = Raise (Fault "TypeError").
Proof.
  intros N. induction names as [| s names IH].
  - cbn. destruct v; try reflexivity. now destruct (N s).
  - cbn [map app str_join].
    destruct (map PStr names ++ v :: rest)%list eqn:E.
    + now destruct names.
    + now rewrite IH.
Qed.

(** X17.  The artists of a release are listed by name, joined by ", ": a
    credit without a name counts as "Unknown", no credit at all gives the
    empty text.  When the name of a credit is not a string ([null], a
    number) the join raises a [TypeError]. *)
Theorem credits_are_joined acs :
  (forall names,
     map credit_name acs = map PStr names ->
     credited (PList (map PDict acs)) = Return (String.concat ", " names)) /\
  (forall names v rest,
     map credit_name acs = (map PStr names ++ v :: rest)%list ->
     (forall s, v <> PStr s) ->
     credited (PList (map PDict acs)) = Raise (Fault "TypeError")).
Proof.
  split.
  - intros names H. rewrite credited_names, H. apply str_join_strings.
  - intros names v rest H N. rewrite credited_names, H.
    now apply str_join_not_string.
Qed.

Lemma credits_are_joined_witness :
  credited (PList (map PDict [[("name", PStr "Radiohead")]; []])) =
  Return (String.concat ", " ["Radiohead"; "Unknown"]).
Proof.
  apply (proj1 (credits_are_joined [[("name", PStr "Radiohead")]; []])).
  reflexivity.
Defined.
